(** * mkfifo: a shallow embedding of [src/mkfifo.c]

    The utility is a thin driver around four library entry points:
    [getopt], [umask], [setmode]/[getmode] and [mkfifo].  The program is
    embedded as state transformers over a [machine] that holds the
    [mkfifo_ctx] structure of the source, the part of the process the
    program can change (file-creation mask, file system) and the
    chronological list of library calls it has made. *)

From stdpp Require Import gmap strings list.
From Stdlib Require Import ZArith Ascii.

Local Open Scope Z_scope.

(** ** Constants of <stdlib.h> and <sys/stat.h> *)

Definition EXIT_SUCCESS : Z := 0.
Definition EXIT_FAILURE : Z := 1.

Definition S_IRUSR : Z := 256. (* 0400 *)
Definition S_IWUSR : Z := 128. (* 0200 *)
Definition S_IRGRP : Z := 32.  (* 0040 *)
Definition S_IWGRP : Z := 16.  (* 0020 *)
Definition S_IROTH : Z := 4.   (* 0004 *)
Definition S_IWOTH : Z := 2.   (* 0002 *)

(** Octal numerals, for readable permission values: [oct [6;6;6]] is 0666. *)
Definition oct (ds : list Z) : Z := foldl (fun acc d => 8 * acc + d) 0 ds.

(** ** Library calls observed during a run *)

Inductive call : Type :=
  | CUmask (mask : Z)
      (* umask(mask) *)
  | CSetmode (mode_str : string)
      (* setmode(mode_str) *)
  | CMkfifo (path : string) (mode : Z) (mask : Z) (ret : Z)
      (* mkfifo(path, mode) returned ret while the file-creation mask was mask *)
  | CWarn (errno_msg : bool) (msg : string).
      (* vwarn (errno_msg = true) or vwarnx (false) printed msg *)

(** One creation attempt: the arguments of mkfifo, the file-creation mask
    in force, and the value returned. *)
Record attempt : Type := Attempt {
  a_path : string;
  a_mode : Z;
  a_mask : Z;
  a_ret : Z
}.

(** The creation attempts of a trace, in order. *)
Definition attempts (t : list call) : list attempt :=
  omap (fun e => match e with
                 | CMkfifo p m k r => Some (Attempt p m k r)
                 | _ => None
                 end) t.

(** [mkfifo(...) != 0] *)
Definition failed (a : attempt) : bool := negb (a_ret a =? 0).

(** The file-creation masks installed by the program. *)
Definition umask_calls (t : list call) : list Z :=
  omap (fun e => match e with CUmask k => Some k | _ => None end) t.

(** The mode strings handed to setmode. *)
Definition setmode_calls (t : list call) : list string :=
  omap (fun e => match e with CSetmode a => Some a | _ => None end) t.

(** ** The platform: what libc and the kernel do

    None of these functions belongs to the repository; the program is
    parametric in them.  [sys_mkfifo path mode mask fs] is mkfifo(2) run
    under file-creation mask [mask]; [setmode] is given the mask in force
    because the BSD implementation reads it. *)

Class Platform : Type := {
  fs : Type;
  bitcmd : Type;
  sys_mkfifo : string -> Z -> Z -> fs -> Z * fs;
  setmode : Z -> string -> option bitcmd;
  getmode : bitcmd -> Z -> Z
}.

(** ** getopt(3) with the option string "m:"

    Modelled from the spec: the option scanner of sections 1 and 6, which
    the source reaches through getopt(3) and does not contain; it yields
    the recognised option characters with their arguments, or signals an
    option it does not recognise.

    What one call returns: a recognised option character with its argument,
    or '?' with [optopt] set to the offending character (an unknown option
    character, or 'm' when its argument is missing). *)

Inductive getopt_ret : Type :=
  | GotOpt (c : ascii) (optarg : string)
  | GotErr (optopt : ascii).

(** The value getopt returns to the caller, and [optarg] after the call. *)
Definition getopt_c (r : getopt_ret) : ascii :=
  match r with
  | GotOpt c _ => c
  | GotErr _ => "?"%char
  end.

Definition getopt_optarg (r : getopt_ret) : string :=
  match r with
  | GotOpt _ optarg => optarg
  | GotErr _ => EmptyString
  end.

(** The option characters of one argument, after its leading '-'.  [next] is
    the following element of argv, if any; the boolean tells whether it was
    taken as the argument of -m. *)
Fixpoint getopt_cluster (cs : string) (next : option string)
  : list getopt_ret * bool :=
  match cs with
  | EmptyString => ([], false)
  | String c rest =>
      if Ascii.eqb c "m" then
        match rest with
        | EmptyString =>
            match next with
            | Some a => ([GotOpt c a], true)
            | None => ([GotErr c], false)
            end
        | _ => ([GotOpt c rest], false)
        end
      else
        let '(rs, used) := getopt_cluster rest next in
        (GotErr c :: rs, used)
  end.

(** All the calls of getopt up to the one that returns -1, over the
    arguments that follow the program name: the values returned, and the
    number of arguments consumed.  Scanning stops at the first operand, at
    a lone "-", and after "--" (POSIX order, no permutation of argv).  The
    messages getopt prints by itself are not part of the trace. *)
Fixpoint getopt_args (args : list string) : list getopt_ret * nat :=
  match args with
  | [] => ([], 0%nat)
  | a :: rest =>
      match a with
      | String "-" EmptyString => ([], 0%nat)
      | String "-" (String "-" EmptyString) => ([], 1%nat)
      | String "-" cs =>
          let '(rs, used) := getopt_cluster cs (head rest) in
          match used, rest with
          | true, _ :: rest' =>
              let '(rs', n) := getopt_args rest' in (rs ++ rs', S (S n))
          | _, _ =>
              let '(rs', n) := getopt_args rest in (rs ++ rs', S n)
          end
      | _ => ([], 0%nat)
      end
  end.

(** The whole [while((c = getopt(argc, argv, "m:")) != -1)] iteration: the
    successive return values, and [optind] when the loop ends. *)
Definition getopt_loop (argv : list string) : list getopt_ret * nat :=
  let '(rs, n) := getopt_args (tail argv) in (rs, S n).

(** ** The program *)

(** [struct mkfifo_ctx] *)
Record mkfifo_ctx : Type := MkCtx {
  status_code : Z;
  mode : Z
}.

Section Program.
Context `{P : Platform}.

Record machine : Type := Machine {
  ctx : mkfifo_ctx;
  cmask : Z;          (* file-creation mask of the process *)
  files : fs;         (* the file system *)
  calls : list call   (* library calls made so far, oldest first *)
}.

Definition set_status (v : Z) (s : machine) : machine :=
  Machine (MkCtx v (mode (ctx s))) (cmask s) (files s) (calls s).

Definition set_mode (v : Z) (s : machine) : machine :=
  Machine (MkCtx (status_code (ctx s)) v) (cmask s) (files s) (calls s).

Definition emit (e : call) (s : machine) : machine :=
  Machine (ctx s) (cmask s) (files s) (calls s ++ [e]).

(** umask(mask) *)
Definition do_umask (mask : Z) (s : machine) : machine :=
  emit (CUmask mask) (Machine (ctx s) mask (files s) (calls s)).

(** mkfifo(path, mode): updates the file system, gives the return value. *)
Definition do_mkfifo (path : string) (m : Z) (s : machine) : Z * machine :=
  let '(r, fs') := sys_mkfifo path m (cmask s) (files s) in
  (r, emit (CMkfifo path m (cmask s) r)
           (Machine (ctx s) (cmask s) fs' (calls s))).

(** [mkfifo_warn]: [msg] is the text vwarn/vwarnx format from [fmt]. *)
Definition mkfifo_warn (errno_msg : bool) (msg : string) (s : machine)
  : machine :=
  emit (CWarn errno_msg msg) (set_status EXIT_FAILURE s).

(** [mkfifo_path] *)
Definition mkfifo_path (path : string) (s : machine) : machine :=
  let '(r, s1) := do_mkfifo path (mode (ctx s)) s in
  if negb (r =? 0)
  then mkfifo_warn true ("cannot create fifo: " +:+ path) s1
  else s1.

(** [mkfifo_parse_mode] *)
Definition mkfifo_parse_mode (mode_str : string) (s : machine) : machine :=
  let s1 := do_umask 0 s in
  let compiled_mode := setmode (cmask s1) mode_str in
  let s2 := emit (CSetmode mode_str) s1 in
  match compiled_mode with
  | None => mkfifo_warn true ("setmode: " +:+ mode_str) s2
  | Some cm => set_mode (getmode cm (oct [6;6;6])) s2
  end.

(** The body of the option loop: [switch(c)] with its [case 'm'] and its
    [default]. *)
Definition option_case (s : machine) (r : getopt_ret) : machine :=
  if Ascii.eqb (getopt_c r) "m"
  then mkfifo_parse_mode (getopt_optarg r) s
  else set_status EXIT_FAILURE s.

(** The option loop over the values getopt returns.  The body of the loop
    touches neither argv nor the state of the scanner, so these values do
    not depend on it. *)
Definition scan_options (rets : list getopt_ret) (s : machine) : machine :=
  foldl option_case s rets.

(** [for(i = 0; i < argc; i++) mkfifo_path(&mkfifo_ctx, argv[i]);] *)
Definition create_paths (paths : list string) (s : machine) : machine :=
  foldl (fun s path => mkfifo_path path s) s paths.

(** The state after [memset] and the assignment of the default mode. *)
Definition init (mask0 : Z) (fs0 : fs) : machine :=
  let zeroed := Machine (MkCtx 0 0) mask0 fs0 [] in
  set_mode (Z.lor (Z.lor (Z.lor S_IRUSR S_IWUSR) (Z.lor S_IRGRP S_IWGRP))
                  (Z.lor S_IROTH S_IWOTH)) zeroed.

(** The operands: [argv += optind]. *)
Definition operands (argv : list string) : list string :=
  drop (snd (getopt_loop argv)) argv.

(** What follows the option loop in [mkfifo_main]. *)
Definition create_stage (argv : list string) (s : machine) : machine :=
  let optind := snd (getopt_loop argv) in
  let argc := Z.of_nat (length argv) - Z.of_nat optind in
  if status_code (ctx s) =? 0 then
    if argc <? 1
    then mkfifo_warn false "missing file..." s
    else create_paths (operands argv) s
  else s.

(** [mkfifo_main], as the final machine state. *)
Definition mkfifo_run (argv : list string) (mask0 : Z) (fs0 : fs) : machine :=
  let s0 := init mask0 fs0 in
  let s1 := scan_options (fst (getopt_loop argv)) s0 in
  create_stage argv s1.

(** The exit status held by a machine. *)
Definition status (s : machine) : Z := status_code (ctx s).

(** [mkfifo_main]: the value returned, which is the exit status. *)
Definition mkfifo_main (argv : list string) (mask0 : Z) (fs0 : fs) : Z :=
  status_code (ctx (mkfifo_run argv mask0 fs0)).

End Program.

Arguments machine {P}.
Arguments Machine {P} ctx cmask files calls.

(** ** The mode compiler behind [setmode]/[getmode]

    Modelled from the spec: the mode compiler of section 4.1 and the
    CompiledMode of section 3.  The source only calls the library functions
    [setmode] and [getmode]; their code is not part of the repository. *)

Module ModeCompiler.

Inductive operator : Type := OpAdd | OpRemove | OpSet.

(** One edit operation: target classes as a mask over the nine permission
    bits, an operator, and the permission letters as a mask replicated
    over the three classes. *)
Record edit : Type := Edit {
  targets : Z;
  operation : operator;
  perms : Z
}.

Inductive CompiledMode : Type :=
  | Literal (n : Z)
  | Edits (es : list edit).

Definition octal_digit (c : ascii) : option Z :=
  let n := Z.of_nat (nat_of_ascii c) in
  if (48 <=? n) && (n <=? 55) then Some (n - 48) else None.

Fixpoint octal_value (acc : Z) (s : string) : option Z :=
  match s with
  | EmptyString => Some acc
  | String c r =>
      match octal_digit c with
      | Some d => octal_value (8 * acc + d) r
      | None => None
      end
  end.

(** The character of an octal digit, and the numeral of a digit list. *)
Definition digit_char (d : Z) : ascii := ascii_of_nat (48 + Z.to_nat d).

Definition numeral (ds : list Z) : string :=
  foldr (fun d s => String (digit_char d) s) EmptyString ds.

(** One or more octal digits. *)
Definition parse_octal (s : string) : option Z :=
  match s with
  | EmptyString => None
  | _ => octal_value 0 s
  end.

Definition class_of (c : ascii) : option Z :=
  if Ascii.eqb c "u" then Some (oct [7;0;0])
  else if Ascii.eqb c "g" then Some (oct [0;7;0])
  else if Ascii.eqb c "o" then Some (oct [0;0;7])
  else if Ascii.eqb c "a" then Some (oct [7;7;7])
  else None.

Definition operator_of (c : ascii) : option operator :=
  if Ascii.eqb c "+" then Some OpAdd
  else if Ascii.eqb c "-" then Some OpRemove
  else if Ascii.eqb c "=" then Some OpSet
  else None.

Definition perm_of (c : ascii) : option Z :=
  if Ascii.eqb c "r" then Some (oct [4;4;4])
  else if Ascii.eqb c "w" then Some (oct [2;2;2])
  else if Ascii.eqb c "x" then Some (oct [1;1;1])
  else None.

(** [rwx]*, to the end of the clause. *)
Fixpoint parse_perms (acc : Z) (s : string) : option Z :=
  match s with
  | EmptyString => Some acc
  | String c r =>
      match perm_of c with
      | Some p => parse_perms (Z.lor acc p) r
      | None => None
      end
  end.

(** [ugoa]* [+-=] [rwx]+ ; without target letters the clause applies to
    all three classes. *)
Fixpoint parse_clause (who : Z) (s : string) : option edit :=
  match s with
  | EmptyString => None
  | String c r =>
      match class_of c with
      | Some w => parse_clause (Z.lor who w) r
      | None =>
          match operator_of c, r with
          | Some o, String _ _ =>
              match parse_perms 0 r with
              | Some p => Some (Edit (if who =? 0 then oct [7;7;7] else who) o p)
              | None => None
              end
          | _, _ => None
          end
      end
  end.

(** The comma-separated clauses of an expression. *)
Fixpoint clauses (s : string) : list string :=
  match s with
  | EmptyString => [EmptyString]
  | String c r =>
      if Ascii.eqb c ","
      then EmptyString :: clauses r
      else match clauses r with
           | x :: xs => String c x :: xs
           | [] => [String c EmptyString]
           end
  end.

(** Modelled from the spec: the mode compiler of section 4.1, which the
    source reaches through the library function [setmode] and does not
    contain.  A pure octal numeral compiles to itself; anything else must
    be a comma-separated list of symbolic clauses. *)
Definition compile_mode (expr : string) : option CompiledMode :=
  match parse_octal expr with
  | Some n => Some (Literal n)
  | None => Edits <$> mapM (parse_clause 0) (clauses expr)
  end.

Definition apply_edit (m : Z) (e : edit) : Z :=
  let bits := Z.land (targets e) (perms e) in
  match operation e with
  | OpAdd => Z.lor m bits
  | OpRemove => Z.land m (Z.lnot bits)
  | OpSet => Z.lor (Z.land m (Z.lnot (targets e))) bits
  end.

(** Modelled from the spec: applying a compiled mode to a base mode, which
    the source reaches through the library function [getmode].  A literal
    involves no base mode; edits apply left to right. *)
Definition apply_mode (cm : CompiledMode) (base : Z) : Z :=
  match cm with
  | Literal n => n
  | Edits es => foldl apply_edit base es
  end.

End ModeCompiler.

(** ** A reference platform

    An instance of [Platform] on which the program can be run: a small
    file system, and the mode compiler above for [setmode]/[getmode]. *)

Module Posix.

Inductive node : Type :=
  | Dir
  | Fifo (perm : Z).

(** The prefix of a path before its last '/', if it has one. *)
Fixpoint parent_prefix (path : string) : option string :=
  match path with
  | EmptyString => None
  | String c r =>
      match parent_prefix r with
      | Some d => Some (String c d)
      | None => if Ascii.eqb c "/" then Some EmptyString else None
      end
  end.

Definition dirname (path : string) : string :=
  match parent_prefix path with
  | Some EmptyString => "/"
  | Some d => d
  | None => "."
  end.

(** Modelled from the spec: the primitive [make_fifo(path, mode)] of
    sections 1 and 6, which the source reaches through mkfifo(2) and does
    not contain.  It fails when the path already exists or a component of
    the path is missing; otherwise it creates a FIFO whose permission bits
    are those of [m] that the file-creation mask lets through. *)
Definition mkfifo (path : string) (m mask : Z) (t : gmap string node)
  : Z * gmap string node :=
  match t !! path with
  | Some _ => (-1, t)
  | None =>
      match t !! dirname path with
      | Some Dir => (0, <[path := Fifo (Z.land m (Z.lnot mask))]> t)
      | _ => (-1, t)
      end
  end.

#[global] Instance platform : Platform := {|
  fs := gmap string node;
  bitcmd := ModeCompiler.CompiledMode;
  sys_mkfifo := mkfifo;
  setmode := fun _ expr => ModeCompiler.compile_mode expr;
  getmode := ModeCompiler.apply_mode
|}.

(** The working directory of the test suite: [build/] exists and is empty. *)
Definition build_tree : gmap string node :=
  <["build" := Dir]> (<["." := Dir]> ∅).

(** Every successful creation recorded in the trace is in the file system
    with the permissions the mask of that moment allowed. *)
Definition created (s : machine) : Prop :=
  forall a, a ∈ attempts (calls s) -> a_ret a = 0 ->
    files s !! a_path a = Some (Fifo (Z.land (a_mode a) (Z.lnot (a_mask a)))).

(** A run in that directory under the customary mask 022. *)
Definition test_run (argv : list string) : machine :=
  mkfifo_run argv (oct [0;2;2]) build_tree.

End Posix.

(** ** Vocabulary of the properties *)

(** The mode strings given with -m, in the order getopt returned them. *)
Definition mode_options (rets : list getopt_ret) : list string :=
  omap (fun r => match r with
                 | GotOpt c a => if Ascii.eqb c "m" then Some a else None
                 | GotErr _ => None
                 end) rets.

(** The switch of the option loop takes its [default] branch on [r], or
    [setmode] refuses the argument of -m. *)
Definition option_fails `{P : Platform} (r : getopt_ret) : bool :=
  match r with
  | GotOpt c a =>
      if Ascii.eqb c "m"
      then match setmode 0 a with None => true | Some _ => false end
      else true
  | GotErr _ => true
  end.

(** The characters getopt rejected, in order. *)
Definition getopt_errors (rets : list getopt_ret) : list ascii :=
  omap (fun r => match r with GotErr c => Some c | GotOpt _ _ => None end) rets.


Section Vocabulary.
Context `{P : Platform}.

(** An option character that is not in the option string was met. *)
Definition unrecognized_option (rets : list getopt_ret) : Prop :=
  exists c, c ∈ getopt_errors rets /\ c <> "m"%char.

(** Some -m argument was refused by [setmode]. *)
Definition mode_parse_failed (rets : list getopt_ret) : Prop :=
  exists a, a ∈ mode_options rets /\ setmode 0 a = None.

(** The elementary operations of the program on its machine: the only
    write to [status_code] after initialisation stores [EXIT_FAILURE]. *)
Inductive step : machine -> machine -> Prop :=
  | step_fail s : step s (set_status EXIT_FAILURE s)
  | step_mode v s : step s (set_mode v s)
  | step_emit e s : step s (emit e s)
  | step_umask k s : step s (do_umask k s)
  | step_mkfifo p m s : step s (snd (do_mkfifo p m s)).

End Vocabulary.

(** ** The program entry point and further observations *)

(** [main]: the exit status of the process is what [mkfifo_main] returns. *)
Definition main `{P : Platform} (argv : list string) (mask0 : Z) (fs0 : fs) : Z :=
  mkfifo_main argv mask0 fs0.

(** The diagnostics of a trace, in order: whether the text of errno is
    appended, and the message. *)
Definition warn_calls (t : list call) : list (bool * string) :=
  omap (fun e => match e with CWarn b msg => Some (b, msg) | _ => None end) t.

(** The paths of the creation attempts that failed, in order. *)
Definition failed_paths (t : list call) : list string :=
  omap (fun a => if failed a then Some (a_path a) else None) (attempts t).

(** The mode strings that [setmode] refuses, in order. *)
Definition refused_modes `{P : Platform} (modes : list string) : list string :=
  omap (fun a => match setmode 0 a with None => Some a | Some _ => None end) modes.

(** ** The test harness, caller of [mkfifo_main]

    The second source file is the test suite.  It needs two more
    primitives than the program: stat(2), which gives [st_mode] or fails,
    and remove(3). *)

Definition S_IXUSR : Z := 64.    (* 0100 *)
Definition S_IXGRP : Z := 8.     (* 0010 *)
Definition S_IXOTH : Z := 1.     (* 0001 *)
Definition S_IFMT : Z := 61440.  (* 0170000 *)
Definition S_IFDIR : Z := 16384. (* 0040000 *)
Definition S_IFIFO : Z := 4096.  (* 0010000 *)

Definition S_ISFIFO (m : Z) : bool := Z.land m S_IFMT =? S_IFIFO.

Class TestPlatform (P : Platform) : Type := {
  sys_stat : string -> fs -> option Z;
  sys_remove : string -> fs -> Z * fs
}.

(** An argument that getopt takes for an operand: it does not start with
    '-', or it is "-" alone. *)
Definition plain_operand (f : string) : bool :=
  match f with
  | String "-" (String _ _) => false
  | _ => true
  end.

Section Harness.
Context `{T : TestPlatform}.

Definition MAX_ARGS : nat := 20.
Definition MAX_ARG_LEN : nat := 255.

(** The argument vector [test_mkfifo_main] builds: the program name, "-a"
    when [extra_arg] is set, "-m" and the mode when [mode_str] is not NULL,
    then the files up to the terminating NULL. *)
Definition test_argv (mode_str : option string) (extra_arg : bool)
    (file_list : list string) : list string :=
  ["mkfifo"] ++ (if extra_arg then ["-a"] else []) ++
  (match mode_str with Some m => ["-m"; m] | None => [] end) ++ file_list.

(** The arguments are copied with strcpy into [MAX_ARGS] buffers of at
    least [MAX_ARG_LEN] bytes each. *)
Definition fits (argv : list string) : bool :=
  (length argv <=? MAX_ARGS)%nat &&
  forallb (fun a => (String.length a <? MAX_ARG_LEN)%nat) argv.

(** [test_mkfifo_main]: [None] when an assertion fails (or when the
    arguments do not fit the buffers, where the C program has no defined
    behaviour).  The child made by fork runs [mkfifo_main] on its own copy
    of the file-creation mask and on the shared file system; the parent
    reads the low eight bits of its exit status. *)
Definition test_mkfifo_main (mode_str : option string) (extra_arg : bool)
    (expect_exit_status : Z) (file_list : list string)
    (mask : Z) (t : fs) : option fs :=
  let argv := test_argv mode_str extra_arg file_list in
  if fits argv then
    let child := mkfifo_run argv mask t in
    let exit_status := status child in
    if Z.land exit_status 255 =? expect_exit_status
    then Some (files child)
    else None
  else None.

(** [test_check_and_remove_fifo] *)
Definition test_check_and_remove_fifo (path : string) (expect_perms : Z)
    (t : fs) : option fs :=
  match sys_stat path t with
  | None => None
  | Some st_mode =>
      let perms :=
        Z.land st_mode
          (Z.lor (Z.lor (Z.lor (Z.lor S_IRUSR S_IWUSR) S_IXUSR)
                        (Z.lor (Z.lor S_IRGRP S_IWGRP) S_IXGRP))
                 (Z.lor (Z.lor S_IROTH S_IWOTH) S_IXOTH)) in
      if S_ISFIFO st_mode then
        if perms =? expect_perms then
          let '(r, t') := sys_remove path t in
          if r =? 0 then Some t' else None
        else None
      else None
  end.

Definition PATH_NOEXIST : string := "build/noexist/test-fifo".
Definition PATH_MKFIFO : string := "build/fifo".
Definition PATH_MKFIFO_2 : string := "build/fifo-2".

Definition default_mode : Z :=
  Z.lor (Z.lor (Z.lor S_IRUSR S_IWUSR) S_IRGRP) S_IROTH.

(** [test_all], run in a process whose file-creation mask is [mask]. *)
Definition test_all (mask : Z) (t : fs) : option fs :=
  let t := (sys_remove PATH_MKFIFO t).2 in
  let t := (sys_remove PATH_MKFIFO_2 t).2 in
  (* No file arguments provided. *)
  t ← test_mkfifo_main None false EXIT_FAILURE [] mask t;
  (* Invalid mode_str argument. *)
  t ← test_mkfifo_main (Some "abc") false EXIT_FAILURE [PATH_MKFIFO] mask t;
  (* Unsupported argument. *)
  t ← test_mkfifo_main None true EXIT_FAILURE [PATH_MKFIFO] mask t;
  (* Does not have permission to create FIFO. *)
  t ← test_mkfifo_main None false EXIT_FAILURE [PATH_NOEXIST] mask t;
  (* Create one FIFO. *)
  t ← test_mkfifo_main None false EXIT_SUCCESS [PATH_MKFIFO] mask t;
  t ← test_check_and_remove_fifo PATH_MKFIFO default_mode t;
  (* Create multiple FIFO's. *)
  t ← test_mkfifo_main None false EXIT_SUCCESS [PATH_MKFIFO; PATH_MKFIFO_2] mask t;
  t ← test_check_and_remove_fifo PATH_MKFIFO default_mode t;
  t ← test_check_and_remove_fifo PATH_MKFIFO_2 default_mode t;
  (* Try to create multiple FIFO's but one fails. *)
  t ← test_mkfifo_main None false EXIT_FAILURE [PATH_MKFIFO; PATH_NOEXIST] mask t;
  t ← test_check_and_remove_fifo PATH_MKFIFO default_mode t;
  (* Create FIFO with a different mode. *)
  t ← test_mkfifo_main (Some "123") false EXIT_SUCCESS [PATH_MKFIFO] mask t;
  test_check_and_remove_fifo PATH_MKFIFO (oct [1;2;3]) t.

End Harness.

(** stat and remove on the file system of the reference platform.  The
    permissions of directories are not recorded; a directory is removed
    only when nothing is left in it. *)

Module PosixTest.

Definition stat (path : string) (t : gmap string Posix.node) : option Z :=
  match t !! path with
  | Some (Posix.Fifo perm) => Some (Z.lor S_IFIFO (Z.land perm (oct [7;7;7;7])))
  | Some Posix.Dir => Some S_IFDIR
  | None => None
  end.

Definition has_children (path : string) (t : gmap string Posix.node) : bool :=
  existsb (fun q => bool_decide (Posix.dirname q = path)) (elements (dom t)).

Definition remove (path : string) (t : gmap string Posix.node)
  : Z * gmap string Posix.node :=
  match t !! path with
  | Some (Posix.Fifo _) => (0, delete path t)
  | Some Posix.Dir =>
      if has_children path t then (-1, t) else (0, delete path t)
  | None => (-1, t)
  end.

#[global] Instance platform : TestPlatform Posix.platform := {|
  sys_stat := stat;
  sys_remove := remove
|}.

End PosixTest.

(** ** The run on what the scanner returned *)

(** getopt returned something other than 'm' ('?' for an option character
    it does not recognise, or for -m without its argument): the switch of
    the option loop takes its [default] branch. *)
Definition option_rejected (rets : list getopt_ret) : Prop :=
  exists r, r ∈ rets /\ getopt_c r <> "m"%char.

Section Scanned.
Context `{P : Platform}.

(** [mkfifo_main] on what getopt returned and left, whatever scanner did
    it: the successive values of [c] with their [optarg], and the operands
    [argv] points to after [argv += optind], [argc] of them. *)
Definition run_scanned (rets : list getopt_ret) (ops : list string)
    (mask0 : Z) (fs0 : fs) : machine :=
  let s1 := scan_options rets (init mask0 fs0) in
  let argc := Z.of_nat (length ops) in
  if status_code (ctx s1) =? 0 then
    if argc <? 1
    then mkfifo_warn false "missing file..." s1
    else create_paths ops s1
  else s1.

(** What mkfifo(2) does on each path in turn, from the file system [f]:
    the path, the mode [m] and the mask [k] of the call, and its return
    value in the file system the calls before it have left. *)
Fixpoint creation_log (m k : Z) (ps : list string) (f : fs) : list attempt :=
  match ps with
  | [] => []
  | p :: ps' =>
      let rf := sys_mkfifo p m k f in
      Attempt p m k rf.1 :: creation_log m k ps' rf.2
  end.

End Scanned.

(** ** A scanner that permutes argv

    Some C libraries let getopt skip over the operands it meets and go on
    looking for options behind them, moving the operands to the end of
    argv.  What such a scanner returns, and the operands it leaves, over
    the arguments that follow the program name. *)
Fixpoint getopt_permuting (args : list string) : list getopt_ret * list string :=
  match args with
  | [] => ([], [])
  | a :: rest =>
      match a with
      | String "-" EmptyString =>
          let '(rs, ops) := getopt_permuting rest in (rs, a :: ops)
      | String "-" (String "-" EmptyString) => ([], rest)
      | String "-" cs =>
          let '(rs, used) := getopt_cluster cs (head rest) in
          match used, rest with
          | true, _ :: rest' =>
              let '(rs', ops) := getopt_permuting rest' in (rs ++ rs', ops)
          | _, _ =>
              let '(rs', ops) := getopt_permuting rest in (rs ++ rs', ops)
          end
      | _ => let '(rs, ops) := getopt_permuting rest in (rs, a :: ops)
      end
  end.

(** * Properties *)

(** ** The test suite of the repository, replayed on the reference platform
    under the customary mask 022 *)

Section TestSuite.
Import Posix.

Example scan1 : getopt_loop ["mkfifo"; "-a"; "-m"; "abc"; "build/fifo"]
                = ([GotErr "a"; GotOpt "m" "abc"], 4%nat).
Proof. reflexivity. Qed.

Example scan2 : getopt_loop ["mkfifo"; "-xm600"; "--"; "-m"]
                = ([GotErr "x"; GotOpt "m" "600"], 3%nat).
Proof. reflexivity. Qed.

Example scan3 : getopt_loop ["mkfifo"; "a"; "-m"; "600"] = ([], 1%nat).
Proof. reflexivity. Qed.

Example scan4 : getopt_loop ["mkfifo"; "-m"] = ([GotErr "m"], 2%nat).
Proof. reflexivity. Qed.

Example test_no_file : status_code (ctx (test_run ["mkfifo"])) = EXIT_FAILURE.
Proof. reflexivity. Qed.

Example test_invalid_mode :
  status_code (ctx (test_run ["mkfifo"; "-m"; "abc"; "build/fifo"])) = EXIT_FAILURE.
Proof. reflexivity. Qed.

Example test_unsupported :
  status_code (ctx (test_run ["mkfifo"; "-a"; "build/fifo"])) = EXIT_FAILURE.
Proof. reflexivity. Qed.

Example test_no_permission :
  status_code (ctx (test_run ["mkfifo"; "build/noexist/test-fifo"])) = EXIT_FAILURE.
Proof. reflexivity. Qed.

Example test_one_fifo :
  let s := test_run ["mkfifo"; "build/fifo"] in
  status_code (ctx s) = EXIT_SUCCESS /\
  files s !! "build/fifo" = Some (Fifo (oct [6;4;4])).
Proof. vm_compute. split; reflexivity. Qed.

Example test_two_fifos :
  let s := test_run ["mkfifo"; "build/fifo"; "build/fifo-2"] in
  status_code (ctx s) = EXIT_SUCCESS /\
  files s !! "build/fifo" = Some (Fifo (oct [6;4;4])) /\
  files s !! "build/fifo-2" = Some (Fifo (oct [6;4;4])).
Proof. vm_compute. repeat split; reflexivity. Qed.

Example test_one_fails :
  let s := test_run ["mkfifo"; "build/fifo"; "build/noexist/test-fifo"] in
  status_code (ctx s) = EXIT_FAILURE /\
  files s !! "build/fifo" = Some (Fifo (oct [6;4;4])).
Proof. vm_compute. split; reflexivity. Qed.

Example test_other_mode :
  let s := test_run ["mkfifo"; "-m"; "123"; "build/fifo"] in
  status_code (ctx s) = EXIT_SUCCESS /\
  files s !! "build/fifo" = Some (Fifo (oct [1;2;3])).
Proof. vm_compute. split; reflexivity. Qed.

End TestSuite.

(** ** Traces *)

Lemma attempts_app (t u : list call) : attempts (t ++ u) = attempts t ++ attempts u.
Proof. apply omap_app. Qed.

Lemma umask_calls_app (t u : list call) :
  umask_calls (t ++ u) = umask_calls t ++ umask_calls u.
Proof. apply omap_app. Qed.

Lemma setmode_calls_app (t u : list call) :
  setmode_calls (t ++ u) = setmode_calls t ++ setmode_calls u.
Proof. apply omap_app. Qed.





(** ** What getopt can return *)

(** Induction over an argument vector that may drop one or two elements. *)
Lemma argv_ind2 (Q : list string -> Prop) :
  Q [] ->
  (forall a l, Q l -> (forall b l', l = b :: l' -> Q l') -> Q (a :: l)) ->
  forall l, Q l.
Proof.
  intros Hnil Hcons l.
  enough (Q l /\ (forall b l', l = b :: l' -> Q l')) as [H _] by exact H.
  induction l as [| a l [IH1 IH2]].
  - split; [exact Hnil | discriminate].
  - split; [apply Hcons; assumption |].
    intros b l' [= _ <-]. exact IH1.
Qed.

(** A cluster only ever yields -m with an argument, or an error. *)
Lemma getopt_cluster_opt cs next c a :
  GotOpt c a ∈ (getopt_cluster cs next).1 -> c = "m"%char.
Proof.
  revert next. induction cs as [| c0 rest IH]; intros next; simpl.
  - intros H. inversion H.
  - destruct (Ascii.eqb_spec c0 "m") as [-> | Hne].
    + destruct rest; [destruct next |]; simpl; intros H;
        apply list_elem_of_singleton in H; congruence.
    + destruct (getopt_cluster rest next) as [rs used] eqn:E. simpl.
      intros H. apply elem_of_cons in H as [H | H]; [discriminate |].
      apply (IH next). rewrite E. exact H.
Qed.

(** getopt reports a missing argument only at the very end of argv. *)
Lemma getopt_cluster_missing cs next :
  GotErr "m" ∈ (getopt_cluster cs next).1 ->
  next = None /\ (getopt_cluster cs next).2 = false.
Proof.
  induction cs as [| c0 rest IH]; simpl.
  - intros H. inversion H.
  - destruct (Ascii.eqb_spec c0 "m") as [-> | Hne].
    + destruct rest; [destruct next |]; simpl; intros H;
        apply list_elem_of_singleton in H; try discriminate.
      split; reflexivity.
    + destruct (getopt_cluster rest next) as [rs used] eqn:E. simpl in *.
      intros H. apply elem_of_cons in H as [H | H]; [congruence |].
      apply IH. exact H.
Qed.

(** One unfolding of [getopt_args] on an option cluster. *)
Lemma getopt_args_cluster cs rest :
  cs <> EmptyString -> cs <> "-" ->
  getopt_args (String "-" cs :: rest) =
    let '(rs, used) := getopt_cluster cs (head rest) in
    match used, rest with
    | true, _ :: rest' =>
        let '(rs', n) := getopt_args rest' in (rs ++ rs', S (S n))
    | _, _ =>
        let '(rs', n) := getopt_args rest in (rs ++ rs', S n)
    end.
Proof.
  intros H1 H2. destruct cs as [| c cs']; [contradiction |].
  simpl. destruct (Ascii.eqb_spec c "-") as [-> | Hc].
  - destruct cs'; [contradiction | reflexivity].
  - destruct c as [[] [] [] [] [] [] [] []]; try reflexivity.
    contradiction Hc. reflexivity.
Qed.

Lemma getopt_args_cases a rest :
  (getopt_args (a :: rest)).1 = [] \/
  exists cs, a = String "-" cs /\ cs <> EmptyString /\ cs <> "-".
Proof.
  destruct a as [| c cs]; [left; reflexivity |].
  destruct (Ascii.eqb_spec c "-") as [-> | Hc].
  - destruct cs as [| c' cs']; [left; reflexivity |].
    destruct (Ascii.eqb_spec c' "-") as [-> | Hc'].
    + destruct cs'; [left; reflexivity |].
      right. eexists. split; [reflexivity | split; discriminate].
    + right. eexists. split; [reflexivity | split; [discriminate | congruence]].
  - left. destruct c as [[] [] [] [] [] [] [] []]; try reflexivity.
    contradiction Hc. reflexivity.
Qed.

Lemma getopt_args_opt args c a :
  GotOpt c a ∈ (getopt_args args).1 -> c = "m"%char.
Proof.
  induction args as [| x rest IH1 IH2] using argv_ind2.
  - intros H. inversion H.
  - destruct (getopt_args_cases x rest) as [-> | (cs & -> & Hcs1 & Hcs2)].
    + intros H. inversion H.
    + rewrite getopt_args_cluster by assumption.
      pose proof (getopt_cluster_opt cs (head rest) c a) as Hcl.
      destruct (getopt_cluster cs (head rest)) as [rs used].
      destruct used, rest as [| b rest'].
      * destruct (getopt_args []) as [rs' n]. cbn [fst] in *.
        intros H. apply elem_of_app in H as [H | H]; auto.
      * specialize (IH2 b rest' eq_refl).
        destruct (getopt_args rest') as [rs' n]. cbn [fst] in *.
        intros H. apply elem_of_app in H as [H | H]; auto.
      * destruct (getopt_args []) as [rs' n]. cbn [fst] in *.
        intros H. apply elem_of_app in H as [H | H]; auto.
      * destruct (getopt_args (b :: rest')) as [rs' n]. cbn [fst] in *.
        intros H. apply elem_of_app in H as [H | H]; auto.
Qed.

Lemma getopt_args_missing args :
  GotErr "m" ∈ (getopt_args args).1 -> drop (getopt_args args).2 args = [].
Proof.
  induction args as [| x rest IH1 IH2] using argv_ind2.
  - intros H. inversion H.
  - destruct (getopt_args_cases x rest) as [-> | (cs & -> & Hcs1 & Hcs2)].
    + intros H. inversion H.
    + rewrite getopt_args_cluster by assumption.
      pose proof (getopt_cluster_missing cs (head rest)) as Hcl.
      destruct (getopt_cluster cs (head rest)) as [rs used].
      cbn [fst snd] in Hcl.
      destruct used, rest as [| b rest'].
      * destruct (getopt_args []) as [rs' n]. cbn [fst snd] in *.
        intros H. apply elem_of_app in H as [H | H]; [| auto].
        destruct (Hcl H); discriminate.
      * specialize (IH2 b rest' eq_refl).
        destruct (getopt_args rest') as [rs' n]. cbn [fst snd] in *.
        intros H. apply elem_of_app in H as [H | H]; [| auto].
        destruct (Hcl H); discriminate.
      * destruct (getopt_args []) as [rs' n]. cbn [fst snd] in *.
        intros _. destruct n; reflexivity.
      * destruct (getopt_args (b :: rest')) as [rs' n]. cbn [fst snd] in *.
        intros H. apply elem_of_app in H as [H | H]; [| auto].
        destruct (Hcl H); discriminate.
Qed.

(** On the results of the real option loop. *)
Lemma getopt_loop_opt argv c a :
  GotOpt c a ∈ (getopt_loop argv).1 -> c = "m"%char.
Proof.
  unfold getopt_loop. destruct (getopt_args (tail argv)) as [rs n] eqn:E.
  simpl. intros H. apply (getopt_args_opt (tail argv) c a). rewrite E. exact H.
Qed.

Lemma getopt_loop_missing argv :
  GotErr "m" ∈ (getopt_loop argv).1 -> drop (getopt_loop argv).2 argv = [].
Proof.
  unfold getopt_loop.
  pose proof (getopt_args_missing (tail argv)) as Hm.
  destruct (getopt_args (tail argv)) as [rs n]. cbn [fst snd] in *.
  intros H. destruct argv as [| prog args]; [reflexivity |].
  apply Hm. exact H.
Qed.

(** ** The functions of the program, one by one *)

Section Facts.
Context `{P : Platform}.
Implicit Types (s : machine) (rets : list getopt_ret) (ps : list string).

Lemma mkfifo_warn_eq b msg s :
  mkfifo_warn b msg s =
  Machine (MkCtx EXIT_FAILURE (mode (ctx s))) (cmask s) (files s)
          (calls s ++ [CWarn b msg]).
Proof. reflexivity. Qed.

Lemma mkfifo_path_eq p s :
  mkfifo_path p s =
  let rf := sys_mkfifo p (mode (ctx s)) (cmask s) (files s) in
  Machine (MkCtx (if rf.1 =? 0 then status_code (ctx s) else EXIT_FAILURE)
                 (mode (ctx s)))
          (cmask s) rf.2
          (calls s ++ CMkfifo p (mode (ctx s)) (cmask s) rf.1 ::
             (if rf.1 =? 0 then []
              else [CWarn true ("cannot create fifo: " +:+ p)])).
Proof.
  unfold mkfifo_path, do_mkfifo.
  destruct (sys_mkfifo p (mode (ctx s)) (cmask s) (files s)) as [r fs'].
  cbn [fst snd]. destruct (r =? 0); unfold mkfifo_warn, set_status, emit; cbn.
  - destruct s as [[st m] k f t]; reflexivity.
  - rewrite <- app_assoc. reflexivity.
Qed.

Lemma mkfifo_parse_mode_eq a s :
  mkfifo_parse_mode a s =
  match setmode 0 a with
  | None =>
      Machine (MkCtx EXIT_FAILURE (mode (ctx s))) 0 (files s)
              (calls s ++ [CUmask 0; CSetmode a; CWarn true ("setmode: " +:+ a)])
  | Some cm =>
      Machine (MkCtx (status_code (ctx s)) (getmode cm (oct [6;6;6]))) 0 (files s)
              (calls s ++ [CUmask 0; CSetmode a])
  end.
Proof.
  unfold mkfifo_parse_mode, mkfifo_warn, do_umask, set_status, set_mode, emit.
  cbn. destruct (setmode 0 a); cbn; rewrite <- !app_assoc; reflexivity.
Qed.

Lemma option_case_default s r :
  getopt_c r <> "m"%char ->
  option_case s r = set_status EXIT_FAILURE s.
Proof.
  intros Hc. unfold option_case.
  destruct (Ascii.eqb_spec (getopt_c r) "m"); [contradiction | reflexivity].
Qed.

Lemma option_case_m s a :
  option_case s (GotOpt "m" a) = mkfifo_parse_mode a s.
Proof. reflexivity. Qed.

Lemma scan_options_snoc rets r s :
  scan_options (rets ++ [r]) s = option_case (scan_options rets s) r.
Proof. unfold scan_options. apply foldl_snoc. Qed.

Lemma scan_options_app rets1 rets2 s :
  scan_options (rets1 ++ rets2) s = scan_options rets2 (scan_options rets1 s).
Proof. unfold scan_options. apply foldl_app. Qed.

Lemma create_paths_snoc ps p s :
  create_paths (ps ++ [p]) s = mkfifo_path p (create_paths ps s).
Proof. unfold create_paths. rewrite foldl_snoc. reflexivity. Qed.

End Facts.

(** ** The option loop *)

Lemma mode_options_app rets1 rets2 :
  mode_options (rets1 ++ rets2) = mode_options rets1 ++ mode_options rets2.
Proof. apply omap_app. Qed.

Lemma mode_options_other c a : c <> "m"%char -> mode_options [GotOpt c a] = [].
Proof.
  intros Hc. unfold mode_options. cbn.
  destruct (Ascii.eqb_spec c "m"); [contradiction | reflexivity].
Qed.

(** The three ways through [switch(c)]: -m accepted, -m refused, default. *)
Ltac case_option r :=
  let c := fresh "c" in
  let a := fresh "a" in
  let E := fresh "Eset" in
  destruct r as [c a | c];
  [ destruct (Ascii.eqb_spec c "m") as [-> | ?];
    [ rewrite option_case_m, mkfifo_parse_mode_eq; destruct (setmode 0 a) eqn:E
    | rewrite option_case_default by assumption ]
  | rewrite option_case_default by discriminate ].

Section OptionLoop.
Context `{P : Platform}.
Implicit Types (s : machine) (rets : list getopt_ret).

(** Invariants of the loop are proved one iteration at a time. *)
Lemma scan_options_ind (R : list getopt_ret -> machine -> Prop) s :
  R [] s ->
  (forall rets r s', R rets s' -> R (rets ++ [r]) (option_case s' r)) ->
  forall rets, R rets (scan_options rets s).
Proof.
  intros Hbase Hstep rets. induction rets as [| r rets IH] using rev_ind.
  - exact Hbase.
  - rewrite scan_options_snoc. apply Hstep. exact IH.
Qed.

Lemma scan_options_files rets s : files (scan_options rets s) = files s.
Proof.
  apply (scan_options_ind (fun _ s' => files s' = files s)); [reflexivity |].
  intros _ r s' IH. case_option r; cbn; exact IH.
Qed.

Lemma scan_options_attempts rets s :
  attempts (calls (scan_options rets s)) = attempts (calls s).
Proof.
  apply (scan_options_ind (fun _ s' => attempts (calls s') = attempts (calls s)));
    [reflexivity |].
  intros _ r s' IH.
  case_option r; cbn; rewrite ?attempts_app, ?IH; cbn; rewrite ?app_nil_r; auto.
Qed.


(** One umask(0) and one setmode per -m, and none otherwise. *)
Lemma scan_options_umask rets s :
  umask_calls (calls (scan_options rets s)) =
  umask_calls (calls s) ++ replicate (length (mode_options rets)) 0.
Proof.
  apply (scan_options_ind (fun rets s' =>
    umask_calls (calls s') =
    umask_calls (calls s) ++ replicate (length (mode_options rets)) 0)).
  - cbn. rewrite app_nil_r. reflexivity.
  - intros rets' r s' IH. rewrite mode_options_app, length_app, replicate_add.
    case_option r; cbn [calls set_status];
      rewrite ?umask_calls_app, IH, <- ?app_assoc.
    + reflexivity.
    + reflexivity.
    + rewrite mode_options_other by assumption. cbn. rewrite app_nil_r. reflexivity.
    + change (mode_options [GotErr c]) with (@nil string).
      cbn. rewrite app_nil_r. reflexivity.
Qed.

Lemma scan_options_setmode rets s :
  setmode_calls (calls (scan_options rets s)) =
  setmode_calls (calls s) ++ mode_options rets.
Proof.
  apply (scan_options_ind (fun rets s' =>
    setmode_calls (calls s') = setmode_calls (calls s) ++ mode_options rets)).
  - cbn. rewrite app_nil_r. reflexivity.
  - intros rets' r s' IH. rewrite mode_options_app.
    case_option r; cbn [calls set_status];
      rewrite ?setmode_calls_app, IH, <- ?app_assoc.
    + reflexivity.
    + reflexivity.
    + rewrite mode_options_other by assumption. cbn. rewrite app_nil_r. reflexivity.
    + change (mode_options [GotErr c]) with (@nil string).
      cbn. rewrite app_nil_r. reflexivity.
Qed.

(** The mask is left alone without -m, and is zero after any -m. *)
Lemma scan_options_cmask rets s :
  cmask (scan_options rets s) =
  match mode_options rets with [] => cmask s | _ :: _ => 0 end.
Proof.
  apply (scan_options_ind (fun rets s' =>
    cmask s' = match mode_options rets with [] => cmask s | _ :: _ => 0 end)).
  - reflexivity.
  - intros rets' r s' IH. rewrite mode_options_app.
    case_option r; cbn [cmask set_status].
    + destruct (mode_options rets'); reflexivity.
    + destruct (mode_options rets'); reflexivity.
    + rewrite mode_options_other, app_nil_r by assumption. exact IH.
    + change (mode_options [GotErr c]) with (@nil string).
      rewrite app_nil_r. exact IH.
Qed.

(** The status after the loop: Failure as soon as one iteration fails. *)
Lemma scan_options_status rets s :
  status (scan_options rets s) =
  if existsb option_fails rets then EXIT_FAILURE else status s.
Proof.
  apply (scan_options_ind (fun rets s' =>
    status s' = if existsb option_fails rets then EXIT_FAILURE else status s)).
  - reflexivity.
  - intros rets' r s' IH. rewrite existsb_app. cbn [existsb].
    unfold status in *.
    case_option r; cbn [option_fails ctx status_code set_status].
    + rewrite Ascii.eqb_refl, Eset, IH. cbn. rewrite !orb_false_r. reflexivity.
    + rewrite Ascii.eqb_refl, Eset. cbn. rewrite orb_true_r. reflexivity.
    + destruct (Ascii.eqb_spec c "m"); [contradiction |].
      cbn. rewrite orb_true_r. reflexivity.
    + cbn. rewrite orb_true_r. reflexivity.
Qed.

(** Without -m the mode field keeps its value. *)
Lemma scan_options_mode_default rets s :
  mode_options rets = [] -> mode (ctx (scan_options rets s)) = mode (ctx s).
Proof.
  revert s. induction rets as [| r rets IH]; intros s; [reflexivity |].
  change (scan_options (r :: rets) s) with (scan_options rets (option_case s r)).
  destruct r as [c a | c]; cbn [mode_options omap list_omap].
  - destruct (Ascii.eqb_spec c "m") as [-> | Hc]; [discriminate |].
    intros H. rewrite (IH _ H), option_case_default by exact Hc. reflexivity.
  - intros H. rewrite (IH _ H), option_case_default by discriminate. reflexivity.
Qed.

(** vwarnx is not used by the option loop. *)
Lemma scan_options_warnx rets s msg :
  CWarn false msg ∈ calls (scan_options rets s) -> CWarn false msg ∈ calls s.
Proof.
  apply (scan_options_ind (fun _ s' =>
    CWarn false msg ∈ calls s' -> CWarn false msg ∈ calls s)); [auto |].
  intros _ r s' IH. case_option r; cbn; try exact IH.
  - intros H. apply elem_of_app in H as [H | H]; [auto |].
    repeat (apply elem_of_cons in H as [H | H]; [discriminate |]). inversion H.
  - intros H. apply elem_of_app in H as [H | H]; [auto |].
    repeat (apply elem_of_cons in H as [H | H]; [discriminate |]). inversion H.
Qed.

End OptionLoop.

(** ** The creation loop *)

Section PathLoop.
Context `{P : Platform}.
Implicit Types (s : machine) (ps : list string).

Lemma create_paths_ind (R : list string -> machine -> Prop) s :
  R [] s ->
  (forall ps p s', R ps s' -> R (ps ++ [p]) (mkfifo_path p s')) ->
  forall ps, R ps (create_paths ps s).
Proof.
  intros Hbase Hstep ps. induction ps as [| p ps IH] using rev_ind.
  - exact Hbase.
  - rewrite create_paths_snoc. apply Hstep. exact IH.
Qed.

(** The loop changes neither the mode field nor the mask. *)
Lemma create_paths_frame ps s :
  mode (ctx (create_paths ps s)) = mode (ctx s) /\
  cmask (create_paths ps s) = cmask s.
Proof.
  apply (create_paths_ind (fun _ s' =>
    mode (ctx s') = mode (ctx s) /\ cmask s' = cmask s)); [split; reflexivity |].
  intros _ p s' [IHm IHk]. rewrite mkfifo_path_eq. cbn. split; assumption.
Qed.

(** Every path is tried, in order, with the mode and mask the loop
    started with, whatever the earlier attempts returned. *)
Lemma create_paths_attempts ps s :
  (fun a => (a_path a, a_mode a, a_mask a)) <$> attempts (calls (create_paths ps s)) =
  ((fun a => (a_path a, a_mode a, a_mask a)) <$> attempts (calls s)) ++
  ((fun p => (p, mode (ctx s), cmask s)) <$> ps).
Proof.
  apply (create_paths_ind (fun ps s' =>
    mode (ctx s') = mode (ctx s) /\ cmask s' = cmask s /\
    (fun a => (a_path a, a_mode a, a_mask a)) <$> attempts (calls s') =
    ((fun a => (a_path a, a_mode a, a_mask a)) <$> attempts (calls s)) ++
    ((fun p => (p, mode (ctx s), cmask s)) <$> ps))).
  - rewrite app_nil_r. auto.
  - intros ps' p s' (IHm & IHk & IH). rewrite mkfifo_path_eq. cbn [ctx mode cmask calls].
    split; [assumption | split; [assumption |]].
    rewrite attempts_app, !fmap_app, IH, <- app_assoc, IHm, IHk.
    f_equal. f_equal.
    destruct ((sys_mkfifo p (mode (ctx s)) (cmask s) (files s')).1 =? 0);
      reflexivity.
Qed.

(** The status after the loop, when no attempt had been made before it. *)
Lemma create_paths_status ps s :
  attempts (calls s) = [] ->
  status (create_paths ps s) =
  if existsb failed (attempts (calls (create_paths ps s)))
  then EXIT_FAILURE else status s.
Proof.
  intros Hs.
  apply (create_paths_ind (fun _ s' =>
    status s' = if existsb failed (attempts (calls s'))
                then EXIT_FAILURE else status s)).
  - rewrite Hs. reflexivity.
  - intros _ p s' IH. rewrite mkfifo_path_eq. unfold status in *.
    cbn [ctx status_code calls]. rewrite attempts_app, existsb_app.
    set (r := (sys_mkfifo p (mode (ctx s')) (cmask s') (files s')).1).
    destruct (r =? 0) eqn:Er.
    + rewrite IH. cbn. unfold failed. cbn. rewrite Er. cbn.
      rewrite !orb_false_r. reflexivity.
    + cbn. unfold failed at 2. cbn. rewrite Er. cbn.
      rewrite orb_true_r. reflexivity.
Qed.


Lemma create_paths_umask ps s :
  umask_calls (calls (create_paths ps s)) = umask_calls (calls s).
Proof.
  apply (create_paths_ind (fun _ s' =>
    umask_calls (calls s') = umask_calls (calls s))); [reflexivity |].
  intros _ p s' IH. rewrite mkfifo_path_eq. cbn [calls].
  rewrite umask_calls_app, IH.
  destruct (_ =? 0); cbn; rewrite app_nil_r; reflexivity.
Qed.

Lemma create_paths_setmode ps s :
  setmode_calls (calls (create_paths ps s)) = setmode_calls (calls s).
Proof.
  apply (create_paths_ind (fun _ s' =>
    setmode_calls (calls s') = setmode_calls (calls s))); [reflexivity |].
  intros _ p s' IH. rewrite mkfifo_path_eq. cbn [calls].
  rewrite setmode_calls_app, IH.
  destruct (_ =? 0); cbn; rewrite app_nil_r; reflexivity.
Qed.

(** The loop orders its operands by [argc]: none exactly when [argc < 1]. *)
Lemma argc_lt_1 (argv : list string) (optind : nat) :
  (Z.of_nat (length argv) - Z.of_nat optind <? 1) = true <->
  drop optind argv = [].
Proof.
  rewrite Z.ltb_lt. split.
  - intros H. apply drop_ge. lia.
  - intros H. apply (f_equal length) in H. rewrite length_drop in H.
    cbn in H. lia.
Qed.

End PathLoop.

(** ** The whole run *)

Section Run.
Context `{P : Platform}.
Implicit Types (s : machine) (argv : list string) (rets : list getopt_ret).

(** The state in which the creation stage starts. *)
Lemma scanned_status argv mask0 fs0 :
  status (scan_options (getopt_loop argv).1 (init mask0 fs0)) =
  if existsb option_fails (getopt_loop argv).1 then EXIT_FAILURE else EXIT_SUCCESS.
Proof. rewrite scan_options_status. reflexivity. Qed.

Lemma scanned_attempts rets mask0 fs0 :
  attempts (calls (scan_options rets (init mask0 fs0))) = [].
Proof. rewrite scan_options_attempts. reflexivity. Qed.

(** The three outcomes of [mkfifo_main] after the option loop. *)
Lemma create_stage_eq argv s :
  create_stage argv s =
  if status s =? 0 then
    if bool_decide (operands argv = [])
    then mkfifo_warn false "missing file..." s
    else create_paths (operands argv) s
  else s.
Proof.
  unfold create_stage, status. destruct (status_code (ctx s) =? 0); [| reflexivity].
  pose proof (argc_lt_1 argv (getopt_loop argv).2) as Hargc.
  fold (operands argv) in Hargc.
  destruct (_ <? 1); case_bool_decide as Hops; try reflexivity.
  - exfalso. apply Hops, Hargc. reflexivity.
  - apply Hargc in Hops. discriminate.
Qed.

Lemma mkfifo_run_eq argv mask0 fs0 :
  mkfifo_run argv mask0 fs0 =
  let s1 := scan_options (getopt_loop argv).1 (init mask0 fs0) in
  if existsb option_fails (getopt_loop argv).1 then s1
  else if bool_decide (operands argv = [])
       then mkfifo_warn false "missing file..." s1
       else create_paths (operands argv) s1.
Proof.
  unfold mkfifo_run. rewrite create_stage_eq, scanned_status. cbn zeta.
  destruct (existsb option_fails _); reflexivity.
Qed.

(** No creation is attempted unless the option loop succeeded and there
    is an operand. *)
Lemma no_attempt argv mask0 fs0 :
  existsb option_fails (getopt_loop argv).1 = true \/ operands argv = [] ->
  attempts (calls (mkfifo_run argv mask0 fs0)) = [] /\
  files (mkfifo_run argv mask0 fs0) = fs0.
Proof.
  rewrite mkfifo_run_eq. cbn zeta. intros Hearly.
  destruct (existsb option_fails _) eqn:Efail.
  - rewrite scanned_attempts, scan_options_files. split; reflexivity.
  - destruct Hearly as [? | Hops]; [discriminate |].
    rewrite bool_decide_eq_true_2 by exact Hops.
    rewrite mkfifo_warn_eq. cbn [calls files].
    rewrite attempts_app, scanned_attempts, scan_options_files. split; reflexivity.
Qed.

(** The exit status, as a decision list. *)
Lemma mkfifo_main_eq argv mask0 fs0 :
  mkfifo_main argv mask0 fs0 =
  if existsb option_fails (getopt_loop argv).1 then EXIT_FAILURE
  else if bool_decide (operands argv = []) then EXIT_FAILURE
  else if existsb failed (attempts (calls (mkfifo_run argv mask0 fs0)))
       then EXIT_FAILURE else EXIT_SUCCESS.
Proof.
  unfold mkfifo_main. fold (status (mkfifo_run argv mask0 fs0)).
  rewrite mkfifo_run_eq. cbn zeta.
  pose proof (scanned_status argv mask0 fs0) as Hst.
  destruct (existsb option_fails _) eqn:Efail; [exact Hst |].
  case_bool_decide as Hops; [reflexivity |].
  rewrite create_paths_status by apply scanned_attempts.
  rewrite Hst. reflexivity.
Qed.


Lemma elem_of_mode_options rets a :
  a ∈ mode_options rets <-> GotOpt "m" a ∈ rets.
Proof.
  unfold mode_options. rewrite list_elem_of_omap. split.
  - intros ([c b | c] & Hin & Hsome); [| discriminate].
    destruct (Ascii.eqb_spec c "m") as [-> | _]; [| discriminate].
    injection Hsome as ->. exact Hin.
  - intros Hin. exists (GotOpt "m" a). split; [exact Hin | reflexivity].
Qed.

Lemma elem_of_getopt_errors rets c :
  c ∈ getopt_errors rets <-> GotErr c ∈ rets.
Proof.
  unfold getopt_errors. rewrite list_elem_of_omap. split.
  - intros ([c' b | c'] & Hin & Hsome); [discriminate |].
    injection Hsome as ->. exact Hin.
  - intros Hin. exists (GotErr c). split; [exact Hin | reflexivity].
Qed.

(** When the option loop fails, on what getopt really returns: an
    unknown option character, a refused mode, or -m without argument. *)
Lemma option_stage_fails_iff argv :
  existsb option_fails (getopt_loop argv).1 = true <->
  unrecognized_option (getopt_loop argv).1 \/
  mode_parse_failed (getopt_loop argv).1 \/
  GotErr "m" ∈ (getopt_loop argv).1.
Proof.
  rewrite existsb_exists. split.
  - intros ([c a | c] & Hin & Hf); apply list_elem_of_In in Hin.
    + pose proof (getopt_loop_opt argv c a Hin) as ->.
      right; left. exists a. split; [apply elem_of_mode_options; exact Hin |].
      cbn in Hf. destruct (setmode 0 a); [discriminate | reflexivity].
    + destruct (decide (c = "m"%char)) as [-> | Hc]; [right; right; exact Hin |].
      left. exists c. split; [apply elem_of_getopt_errors; exact Hin | exact Hc].
  - intros [(c & Hin & _) | [(a & Hin & Hset) | Hin]].
    + exists (GotErr c). split; [| reflexivity].
      apply list_elem_of_In, elem_of_getopt_errors, Hin.
    + exists (GotOpt "m" a). split.
      * apply list_elem_of_In, elem_of_mode_options, Hin.
      * cbn. rewrite Hset. reflexivity.
    + exists (GotErr "m"). split; [apply list_elem_of_In, Hin | reflexivity].
Qed.

End Run.

Section RunAttempts.
Context `{P : Platform}.
Implicit Types (argv : list string).

(** The option loop succeeded exactly when its status is still Success. *)
Lemma scanned_success argv mask0 fs0 :
  status (scan_options (getopt_loop argv).1 (init mask0 fs0)) = EXIT_SUCCESS <->
  existsb option_fails (getopt_loop argv).1 = false.
Proof.
  rewrite scanned_status. destruct (existsb option_fails _); split;
    (reflexivity || discriminate).
Qed.

(** The attempts of a run that reaches the creation loop. *)
Lemma run_attempts argv mask0 fs0 :
  existsb option_fails (getopt_loop argv).1 = false ->
  operands argv <> [] ->
  let s1 := scan_options (getopt_loop argv).1 (init mask0 fs0) in
  (fun a => (a_path a, a_mode a, a_mask a))
    <$> attempts (calls (mkfifo_run argv mask0 fs0)) =
  (fun p => (p, mode (ctx s1), cmask s1)) <$> operands argv.
Proof.
  intros Hok Hops. cbn zeta. rewrite mkfifo_run_eq. cbn zeta.
  rewrite Hok, bool_decide_eq_false_2 by exact Hops.
  rewrite create_paths_attempts, scanned_attempts. reflexivity.
Qed.

(** Whatever the run, an attempt carries the mode field and the mask that
    the option loop left. *)
Lemma run_attempt_args argv mask0 fs0 a :
  a ∈ attempts (calls (mkfifo_run argv mask0 fs0)) ->
  let s1 := scan_options (getopt_loop argv).1 (init mask0 fs0) in
  a_mode a = mode (ctx s1) /\ a_mask a = cmask s1.
Proof.
  intros Ha. cbn zeta.
  destruct (existsb option_fails (getopt_loop argv).1) eqn:Efail.
  { destruct (no_attempt argv mask0 fs0) as [Hnil _]; [left; exact Efail |].
    rewrite Hnil in Ha. inversion Ha. }
  destruct (decide (operands argv = [])) as [Hops | Hops].
  { destruct (no_attempt argv mask0 fs0) as [Hnil _]; [right; exact Hops |].
    rewrite Hnil in Ha. inversion Ha. }
  pose proof (run_attempts argv mask0 fs0 Efail Hops) as Heq. cbn zeta in Heq.
  apply (list_elem_of_fmap_2 (fun a => (a_path a, a_mode a, a_mask a))) in Ha.
  rewrite Heq in Ha. apply list_elem_of_fmap in Ha as (p & Hp & _).
  injection Hp as _ Hm Hk. split; assumption.
Qed.

(** The run never changes the mode field or the mask after the option loop. *)
Lemma run_frame argv mask0 fs0 :
  let s1 := scan_options (getopt_loop argv).1 (init mask0 fs0) in
  mode (ctx (mkfifo_run argv mask0 fs0)) = mode (ctx s1) /\
  cmask (mkfifo_run argv mask0 fs0) = cmask s1.
Proof.
  cbn zeta. rewrite mkfifo_run_eq. cbn zeta.
  destruct (existsb option_fails _); [split; reflexivity |].
  case_bool_decide; [split; reflexivity | apply create_paths_frame].
Qed.


Lemma run_umask_calls argv mask0 fs0 :
  umask_calls (calls (mkfifo_run argv mask0 fs0)) =
  replicate (length (mode_options (getopt_loop argv).1)) 0.
Proof.
  rewrite mkfifo_run_eq. cbn zeta.
  destruct (existsb option_fails _); [apply scan_options_umask |].
  case_bool_decide.
  - rewrite mkfifo_warn_eq. cbn [calls].
    rewrite umask_calls_app, scan_options_umask. cbn. apply app_nil_r.
  - rewrite create_paths_umask. apply scan_options_umask.
Qed.

Lemma run_setmode_calls argv mask0 fs0 :
  setmode_calls (calls (mkfifo_run argv mask0 fs0)) =
  mode_options (getopt_loop argv).1.
Proof.
  rewrite mkfifo_run_eq. cbn zeta.
  destruct (existsb option_fails _); [apply scan_options_setmode |].
  case_bool_decide.
  - rewrite mkfifo_warn_eq. cbn [calls].
    rewrite setmode_calls_app, scan_options_setmode. cbn. apply app_nil_r.
  - rewrite create_paths_setmode. apply scan_options_setmode.
Qed.

End RunAttempts.

(** ** Mode resolution *)

Section OctalNumerals.
Import ModeCompiler.

(** A pure octal numeral compiles to its value, and applying the result
    ignores the base mode. *)
Lemma compile_octal expr n :
  parse_octal expr = Some n -> compile_mode expr = Some (Literal n).
Proof. unfold compile_mode. intros ->. reflexivity. Qed.

Lemma octal_digit_char d : 0 <= d < 8 -> octal_digit (digit_char d) = Some d.
Proof.
  intros Hd.
  assert (d = 0 \/ d = 1 \/ d = 2 \/ d = 3 \/ d = 4 \/ d = 5 \/ d = 6 \/ d = 7)
    as Hcases by lia.
  repeat (destruct Hcases as [-> | Hcases]; [reflexivity |]).
  subst d. reflexivity.
Qed.

Lemma octal_value_numeral ds acc :
  Forall (fun d => 0 <= d < 8) ds ->
  octal_value acc (numeral ds) = Some (foldl (fun a d => 8 * a + d) acc ds).
Proof.
  intros Hds. revert acc. induction Hds as [| d ds Hd _ IH]; intros acc.
  - reflexivity.
  - cbn [numeral foldr octal_value foldl]. rewrite octal_digit_char by exact Hd.
    apply IH.
Qed.

(** The numeral written with the digits [ds] has the value [oct ds]. *)
Lemma parse_octal_numeral ds :
  ds <> [] -> Forall (fun d => 0 <= d < 8) ds ->
  parse_octal (numeral ds) = Some (oct ds).
Proof.
  intros Hne Hds. unfold parse_octal, oct.
  rewrite <- (octal_value_numeral ds 0 Hds).
  destruct ds as [| d ds]; [contradiction | reflexivity].
Qed.

End OctalNumerals.

Section PosixFacts.
Import Posix.

(** Either the node is new and created under the mask, or nothing changes. *)
Lemma posix_mkfifo_spec p m k (t : gmap string node) :
  ((mkfifo p m k t).1 = 0 /\ t !! p = None /\
   (mkfifo p m k t).2 = <[p := Fifo (Z.land m (Z.lnot k))]> t) \/
  ((mkfifo p m k t).1 = -1 /\ (mkfifo p m k t).2 = t).
Proof.
  unfold mkfifo. destruct (t !! p); [right; split; reflexivity |].
  destruct (t !! dirname p) as [[] |]; auto.
Qed.

Lemma created_mkfifo_path p (s : machine) : created s -> created (mkfifo_path p s).
Proof.
  intros Hs a. rewrite mkfifo_path_eq. cbn [calls files]. rewrite attempts_app.
  pose proof (posix_mkfifo_spec p (mode (ctx s)) (cmask s) (files s)) as Hspec.
  change (mkfifo p (mode (ctx s)) (cmask s) (files s))
    with (sys_mkfifo p (mode (ctx s)) (cmask s) (files s)) in Hspec.
  destruct (sys_mkfifo p (mode (ctx s)) (cmask s) (files s)) as [r t'].
  cbn [fst snd] in *.
  destruct Hspec as [(-> & Hnone & ->) | (-> & ->)].
  - (* created *)
    change (attempts (CMkfifo p (mode (ctx s)) (cmask s) 0 :: _))
      with [Attempt p (mode (ctx s)) (cmask s) 0].
    intros Ha Hr. apply elem_of_app in Ha as [Ha | Ha].
    + destruct (decide (a_path a = p)) as [Hp | Hp].
      * pose proof (Hs a Ha Hr) as Hold. rewrite Hp in Hold.
        change (files s !! p = None) in Hnone. rewrite Hnone in Hold.
        discriminate.
      * etrans; [| exact (Hs a Ha Hr)].
        apply (lookup_insert_ne (M := gmap string)). congruence.
    + apply list_elem_of_singleton in Ha. subst a.
      apply (lookup_insert_eq (M := gmap string)).
  - (* refused: the file system is as before *)
    change (attempts (CMkfifo p (mode (ctx s)) (cmask s) (-1) :: _))
      with [Attempt p (mode (ctx s)) (cmask s) (-1)].
    intros Ha Hr. apply elem_of_app in Ha as [Ha | Ha]; [auto |].
    apply list_elem_of_singleton in Ha. subst a. discriminate.
Qed.

Lemma created_run argv mask0 (fs0 : gmap string node) :
  created (mkfifo_run argv mask0 fs0).
Proof.
  assert (created (scan_options (getopt_loop argv).1 (init mask0 fs0))) as Hs1.
  { intros a Ha. rewrite scanned_attempts in Ha. inversion Ha. }
  rewrite mkfifo_run_eq. cbn zeta.
  destruct (existsb option_fails _); [exact Hs1 |].
  case_bool_decide.
  - intros a Ha. rewrite mkfifo_warn_eq in Ha. cbn [calls] in Ha.
    rewrite attempts_app, scanned_attempts in Ha. inversion Ha.
  - apply (create_paths_ind (fun _ s' => created s')); [exact Hs1 |].
    intros _ p s' IH. apply created_mkfifo_path, IH.
Qed.

End PosixFacts.

Section ModeField.
Context `{P : Platform}.
Implicit Types (s : machine) (rets : list getopt_ret).

(** The mode field after the option loop: each -m that [setmode] accepts
    overwrites it, each one it refuses leaves it. *)
Lemma scan_options_mode rets s :
  mode (ctx (scan_options rets s)) =
  foldl (fun m a => match setmode 0 a with
                    | Some cm => getmode cm (oct [6;6;6])
                    | None => m
                    end) (mode (ctx s)) (mode_options rets).
Proof.
  apply (scan_options_ind (fun rets s' =>
    mode (ctx s') =
    foldl (fun m a => match setmode 0 a with
                      | Some cm => getmode cm (oct [6;6;6])
                      | None => m
                      end) (mode (ctx s)) (mode_options rets))).
  - reflexivity.
  - intros rets' r s' IH. rewrite mode_options_app, foldl_app.
    case_option r; cbn [ctx mode set_status].
    + change (mode_options [GotOpt "m" a]) with [a]. cbn [foldl].
      rewrite Eset. reflexivity.
    + change (mode_options [GotOpt "m" a]) with [a]. cbn [foldl].
      rewrite Eset. exact IH.
    + rewrite mode_options_other by assumption. exact IH.
    + exact IH.
Qed.

(** The last -m wins when [setmode] accepts it. *)
Lemma scan_options_mode_last rets s front a cm :
  mode_options rets = front ++ [a] -> setmode 0 a = Some cm ->
  mode (ctx (scan_options rets s)) = getmode cm (oct [6;6;6]).
Proof.
  intros Hm Hset. rewrite scan_options_mode, Hm, foldl_snoc, Hset. reflexivity.
Qed.

End ModeField.

(** ** The elementary steps *)

Section Steps.
Context `{P : Platform}.
Implicit Types (s : machine).

Lemma step_sticky s s' :
  step s s' -> status s = EXIT_FAILURE -> status s' = EXIT_FAILURE.
Proof.
  intros Hstep Hs. inversion Hstep; subst; unfold status in *; cbn; try assumption.
  - reflexivity.
  - unfold do_mkfifo. destruct (sys_mkfifo _ _ _ _). cbn. assumption.
Qed.

Lemma steps_sticky s s' :
  rtc step s s' -> status s = EXIT_FAILURE -> status s' = EXIT_FAILURE.
Proof.
  induction 1 as [| s1 s2 s3 H12 _ IH]; [auto |].
  intros Hs. apply IH. eapply step_sticky; eassumption.
Qed.

Lemma mkfifo_warn_steps b msg s : rtc step s (mkfifo_warn b msg s).
Proof.
  unfold mkfifo_warn.
  eapply rtc_l; [apply step_fail |]. apply rtc_once, step_emit.
Qed.

Lemma mkfifo_path_steps p s : rtc step s (mkfifo_path p s).
Proof.
  unfold mkfifo_path.
  pose proof (step_mkfifo p (mode (ctx s)) s) as Hsys.
  destruct (do_mkfifo p (mode (ctx s)) s) as [r s1]. cbn [snd] in Hsys.
  destruct (negb (r =? 0)).
  - eapply rtc_l; [exact Hsys | apply mkfifo_warn_steps].
  - apply rtc_once, Hsys.
Qed.

Lemma mkfifo_parse_mode_steps a s : rtc step s (mkfifo_parse_mode a s).
Proof.
  unfold mkfifo_parse_mode.
  eapply rtc_l; [apply (step_umask 0) |].
  eapply rtc_l; [apply (step_emit (CSetmode a)) |].
  destruct (setmode _ a).
  - apply rtc_once, step_mode.
  - apply mkfifo_warn_steps.
Qed.

Lemma option_case_steps s r : rtc step s (option_case s r).
Proof.
  unfold option_case. destruct (Ascii.eqb _ "m").
  - apply mkfifo_parse_mode_steps.
  - apply rtc_once, step_fail.
Qed.

Lemma scan_options_steps rets s : rtc step s (scan_options rets s).
Proof.
  apply (scan_options_ind (fun _ s' => rtc step s s')); [reflexivity |].
  intros _ r s' IH. etrans; [exact IH | apply option_case_steps].
Qed.

Lemma create_paths_steps ps s : rtc step s (create_paths ps s).
Proof.
  apply (create_paths_ind (fun _ s' => rtc step s s')); [reflexivity |].
  intros _ p s' IH. etrans; [exact IH | apply mkfifo_path_steps].
Qed.

Lemma create_stage_steps argv s : rtc step s (create_stage argv s).
Proof.
  unfold create_stage. destruct (_ =? 0); [| reflexivity].
  destruct (_ <? 1); [apply mkfifo_warn_steps | apply create_paths_steps].
Qed.

End Steps.

(** ** The run, whatever the scanner *)

Section ScannedRun.
Context `{P : Platform}.
Implicit Types (s : machine) (rets : list getopt_ret) (ps ops : list string).

Lemma failed_in_iff (l : list attempt) :
  existsb failed l = true <-> exists a, a ∈ l /\ a_ret a <> 0.
Proof.
  rewrite existsb_exists. split; intros (a & Ha & Hr); exists a.
  - split; [apply list_elem_of_In; exact Ha |].
    unfold failed in Hr. destruct (Z.eqb_spec (a_ret a) 0); [discriminate | assumption].
  - split; [apply list_elem_of_In; exact Ha |].
    unfold failed. destruct (Z.eqb_spec (a_ret a) 0); [contradiction | reflexivity].
Qed.

(** The option loop fails exactly when getopt returned something else than
    'm' or [setmode] refused a mode, for any list of results. *)
Lemma option_loop_fails_iff rets :
  existsb option_fails rets = true <->
  option_rejected rets \/ mode_parse_failed rets.
Proof.
  rewrite existsb_exists. split.
  - intros (r & Hin & Hf). apply list_elem_of_In in Hin.
    destruct r as [c a | c].
    + cbn in Hf. destruct (Ascii.eqb_spec c "m") as [-> | Hc].
      * right. exists a. split; [apply elem_of_mode_options; exact Hin |].
        destruct (setmode 0 a); [discriminate | reflexivity].
      * left. exists (GotOpt c a). auto.
    + left. exists (GotErr c). split; [exact Hin | discriminate].
  - intros [(r & Hin & Hc) | (a & Hin & Hset)].
    + exists r. split; [apply list_elem_of_In; exact Hin |].
      destruct r as [c a | c]; [| reflexivity].
      cbn in *. destruct (Ascii.eqb_spec c "m"); [contradiction | reflexivity].
    + exists (GotOpt "m" a). split.
      * apply list_elem_of_In, elem_of_mode_options, Hin.
      * cbn. rewrite Hset. reflexivity.
Qed.

(** The creation loop calls mkfifo on every path in turn, each call in the
    file system the calls before it have left. *)
Lemma create_paths_log ps s :
  attempts (calls (create_paths ps s)) =
  attempts (calls s) ++ creation_log (mode (ctx s)) (cmask s) ps (files s).
Proof.
  revert s. induction ps as [| p ps IH]; intros s.
  - cbn. rewrite app_nil_r. reflexivity.
  - change (create_paths (p :: ps) s) with (create_paths ps (mkfifo_path p s)).
    rewrite IH, mkfifo_path_eq. cbn [calls ctx mode cmask files creation_log].
    rewrite attempts_app, <- app_assoc. f_equal.
    destruct (_ =? 0); reflexivity.
Qed.

Lemma mkfifo_run_scanned (argv : list string) mask0 fs0 :
  mkfifo_run argv mask0 fs0 =
  run_scanned (getopt_loop argv).1 (operands argv) mask0 fs0.
Proof.
  unfold mkfifo_run, run_scanned, create_stage. cbn zeta.
  destruct (_ =? 0); [| reflexivity].
  replace (Z.of_nat (length (operands argv)) <? 1)
    with (Z.of_nat (length argv) - Z.of_nat (getopt_loop argv).2 <? 1);
    [reflexivity |].
  unfold operands. rewrite length_drop.
  destruct (Z.ltb_spec (Z.of_nat (length argv) - Z.of_nat (getopt_loop argv).2) 1);
    destruct (Z.ltb_spec (Z.of_nat (length argv - (getopt_loop argv).2)) 1);
    (reflexivity || lia).
Qed.

(** The three outcomes of the run, and what was attempted in each. *)
Lemma run_scanned_cases rets ops mask0 fs0 :
  let s1 := scan_options rets (init mask0 fs0) in
  let r := run_scanned rets ops mask0 fs0 in
  let log := creation_log (mode (ctx s1)) (cmask s1) ops fs0 in
  (existsb option_fails rets = true /\
   status r = EXIT_FAILURE /\ attempts (calls r) = []) \/
  (existsb option_fails rets = false /\ ops = [] /\
   status r = EXIT_FAILURE /\ attempts (calls r) = log) \/
  (existsb option_fails rets = false /\ ops <> [] /\
   status r = (if existsb failed log then EXIT_FAILURE else EXIT_SUCCESS) /\
   attempts (calls r) = log).
Proof.
  cbn zeta. unfold run_scanned.
  pose proof (scan_options_status rets (init mask0 fs0)) as Hst.
  pose proof (scan_options_attempts rets (init mask0 fs0)) as Hatt.
  pose proof (scan_options_files rets (init mask0 fs0)) as Hfiles.
  change (attempts (calls (init mask0 fs0))) with (@nil attempt) in Hatt.
  change (files (init mask0 fs0)) with fs0 in Hfiles.
  change (status (init mask0 fs0)) with EXIT_SUCCESS in Hst.
  unfold status in Hst |- *.
  destruct (existsb option_fails rets) eqn:Efail; rewrite Hst.
  - left. change (EXIT_FAILURE =? 0) with false. cbn match. auto.
  - right. change (EXIT_SUCCESS =? 0) with true. cbn match.
    destruct ops as [| p ops'].
    + left. change (Z.of_nat (length (@nil string)) <? 1) with true. cbn match.
      rewrite mkfifo_warn_eq. cbn [ctx status_code calls creation_log].
      rewrite attempts_app, Hatt. auto.
    + right.
      destruct (Z.ltb_spec (Z.of_nat (length (p :: ops'))) 1) as [Hlt |];
        [cbn [length] in Hlt; lia |].
      pose proof (create_paths_status (p :: ops') _ Hatt) as Hcs.
      unfold status in Hcs.
      rewrite Hcs, create_paths_log, Hatt, Hfiles, Hst. cbn [app].
      repeat split. discriminate.
Qed.

End ScannedRun.

(** * The claims *)

(** C1. Whatever the scanner returned and left, the exit status is
    [EXIT_FAILURE] exactly when mkfifo fails on one of the operands (in the
    file system the creations before it have left), or there is no operand,
    or getopt rejected an option (the switch took its default branch), or
    [setmode] refused the argument of a -m; in every other case it is
    [EXIT_SUCCESS].  The mkfifo calls of the run are the calls on the
    operands in turn, and there is none after an option or mode error.
    [mkfifo_main] is this run on the results of getopt. *)
Theorem C1_exit_status :
  (forall (P : Platform) rets ops mask0 fs0,
     let s1 := scan_options rets (init mask0 fs0) in
     let r := run_scanned rets ops mask0 fs0 in
     let log := creation_log (mode (ctx s1)) (cmask s1) ops fs0 in
     let failure :=
       (exists a, a ∈ log /\ a_ret a <> 0) \/
       ops = [] \/
       option_rejected rets \/ mode_parse_failed rets in
     (status r = EXIT_FAILURE <-> failure) /\
     (status r = EXIT_SUCCESS <-> ~ failure) /\
     (~ option_rejected rets -> ~ mode_parse_failed rets ->
      attempts (calls r) = log) /\
     (option_rejected rets \/ mode_parse_failed rets ->
      attempts (calls r) = [])) /\
  (forall (P : Platform) argv mask0 fs0,
     mkfifo_run argv mask0 fs0 =
       run_scanned (getopt_loop argv).1 (operands argv) mask0 fs0 /\
     mkfifo_main argv mask0 fs0 =
       status (run_scanned (getopt_loop argv).1 (operands argv) mask0 fs0)).
Proof.
  split.
  - intros P rets ops mask0 fs0. cbn zeta.
    pose proof (option_loop_fails_iff rets) as Hstage.
    pose proof (failed_in_iff
      (creation_log (mode (ctx (scan_options rets (init mask0 fs0))))
                    (cmask (scan_options rets (init mask0 fs0))) ops fs0))
      as Hfailed.
    destruct (run_scanned_cases rets ops mask0 fs0)
      as [(Efail & -> & Hatt) | [(Efail & Hops & -> & Hatt)
                                | (Efail & Hops & -> & Hatt)]].
    + (* the option loop failed *)
      assert (option_rejected rets \/ mode_parse_failed rets) as Hwhy
        by (apply Hstage, Efail).
      repeat split; try discriminate; try tauto.
    + (* no operand *)
      repeat split; try discriminate; try tauto.
      intros Hwhy. apply Hstage in Hwhy. congruence.
    + (* the creation loop ran *)
      assert (~ (option_rejected rets \/ mode_parse_failed rets)) as Hnot
        by (intros Hwhy; apply Hstage in Hwhy; congruence).
      destruct (existsb failed _) eqn:Elog.
      * repeat split; try discriminate; try tauto.
      * assert (~ exists a,
                  a ∈ creation_log
                        (mode (ctx (scan_options rets (init mask0 fs0))))
                        (cmask (scan_options rets (init mask0 fs0))) ops fs0 /\
                  a_ret a <> 0) as Hnone
          by (intros Hsome; apply Hfailed in Hsome; discriminate).
        repeat split; try discriminate; try tauto.
  - intros P argv mask0 fs0. unfold mkfifo_main.
    rewrite mkfifo_run_scanned. split; reflexivity.
Qed.

Lemma C1_exit_status_witness :
  let ops := ["build/noexist/test-fifo"; "build/fifo"] in
  let r := run_scanned (P := Posix.platform) [] ops (oct [0;2;2]) Posix.build_tree in
  (~ option_rejected [] /\ ~ mode_parse_failed (P := Posix.platform) []) /\
  attempts (calls r) =
    [Attempt "build/noexist/test-fifo" (oct [6;6;6]) (oct [0;2;2]) (-1);
     Attempt "build/fifo" (oct [6;6;6]) (oct [0;2;2]) 0] /\
  status r = EXIT_FAILURE.
Proof.
  cbn zeta.
  assert (~ option_rejected []) as Hrej
    by (intros (r & Hin & _); inversion Hin).
  assert (~ mode_parse_failed (P := Posix.platform) []) as Hmode
    by (intros (a & Hin & _); inversion Hin).
  destruct (proj1 C1_exit_status Posix.platform []
              ["build/noexist/test-fifo"; "build/fifo"]
              (oct [0;2;2]) Posix.build_tree) as (Hfail & _ & Hatt & _).
  split; [split; assumption |]. split.
  - rewrite (Hatt Hrej Hmode). reflexivity.
  - apply Hfail. left.
    exists (Attempt "build/noexist/test-fifo" (oct [6;6;6]) (oct [0;2;2]) (-1)).
    split; [left | discriminate].
Defined.

(** With a scanner that moves the operands behind the options, -m without
    its argument leaves an operand and still fails, without any creation. *)
Example C1_permuted :
  let r := run_scanned (P := Posix.platform) [GotErr "m"] ["build/fifo"]
             (oct [0;2;2]) Posix.build_tree in
  status r = EXIT_FAILURE /\ calls r = [] /\ option_rejected [GotErr "m"].
Proof.
  cbn zeta. split; [reflexivity | split; [reflexivity |]].
  exists (GotErr "m"). split; [left | discriminate].
Qed.

(** C2 (as amended). Without -m, the mode handed to every FIFO creation is
    the constant 0666 (rw-rw-rw-), whatever the inherited mask and the file
    system; it is neither 0664 nor 0644. *)
Theorem C2_default_mode_passed `{P : Platform} (argv : list string) mask0 fs0 :
  mode_options (getopt_loop argv).1 = [] ->
  mode (ctx (mkfifo_run argv mask0 fs0)) = oct [6;6;6] /\
  forall a, a ∈ attempts (calls (mkfifo_run argv mask0 fs0)) ->
            a_mode a = oct [6;6;6].
Proof.
  intros Hnom.
  assert (mode (ctx (scan_options (getopt_loop argv).1 (init mask0 fs0)))
          = oct [6;6;6]) as Hmode
    by (rewrite scan_options_mode_default by exact Hnom; reflexivity).
  split.
  - rewrite (proj1 (run_frame argv mask0 fs0)). exact Hmode.
  - intros a Ha. rewrite (proj1 (run_attempt_args argv mask0 fs0 a Ha)).
    exact Hmode.
Qed.

Lemma C2_default_mode_passed_witness :
  mode_options (getopt_loop ["mkfifo"; "build/fifo"]).1 = [] /\
  (mode (ctx (Posix.test_run ["mkfifo"; "build/fifo"])) = oct [6;6;6] /\
   forall a, a ∈ attempts (calls (Posix.test_run ["mkfifo"; "build/fifo"])) ->
             a_mode a = oct [6;6;6]).
Proof.
  split; [reflexivity |].
  apply (C2_default_mode_passed (P := Posix.platform)). reflexivity.
Defined.

(** C2 as stated fails: with no -m and a creation that succeeds, it is not
    true that the mode passed is never 0666. *)
Lemma C2_counterexample :
  let argv := ["mkfifo"; "build/fifo"] in
  ~ (mode_options (getopt_loop argv).1 = [] ->
     mkfifo_main argv (oct [0;2;2]) Posix.build_tree = EXIT_SUCCESS ->
     forall a, a ∈ attempts (calls (mkfifo_run argv (oct [0;2;2]) Posix.build_tree)) ->
       a_mode a <> oct [6;6;6]).
Proof.
  cbn zeta. intros Hclaim.
  apply (Hclaim eq_refl eq_refl (Attempt "build/fifo" (oct [6;6;6]) (oct [0;2;2]) 0)).
  - vm_compute. left.
  - reflexivity.
Qed.

(** The run of that counterexample: 0666 is passed, which is neither 0664
    nor 0644, and the bits of the node follow the inherited mask. *)
Example C2_trace :
  let argv := ["mkfifo"; "build/fifo"] in
  calls (mkfifo_run argv (oct [0;2;2]) Posix.build_tree)
    = [CMkfifo "build/fifo" (oct [6;6;6]) (oct [0;2;2]) 0] /\
  oct [6;6;6] <> oct [6;6;4] /\ oct [6;6;6] <> oct [6;4;4] /\
  files (mkfifo_run argv (oct [0;2;2]) Posix.build_tree) !! "build/fifo"
    = Some (Posix.Fifo (oct [6;4;4])) /\
  files (mkfifo_run argv 0 Posix.build_tree) !! "build/fifo"
    = Some (Posix.Fifo (oct [6;6;6])).
Proof. vm_compute. repeat split; discriminate. Qed.



(** The first operand fails, the second is created all the same. *)
Example C3_trace :
  calls (Posix.test_run ["mkfifo"; "build/noexist/test-fifo"; "build/fifo"]) =
  [ CMkfifo "build/noexist/test-fifo" (oct [6;6;6]) (oct [0;2;2]) (-1);
    CWarn true "cannot create fifo: build/noexist/test-fifo";
    CMkfifo "build/fifo" (oct [6;6;6]) (oct [0;2;2]) 0 ].
Proof. reflexivity. Qed.

(** C4. When [setmode] refuses the argument of some -m, the exit status is
    Failure and mkfifo is not called for any path: the file system is left
    as it was. *)
Theorem C4_bad_mode_creates_nothing `{P : Platform} (argv : list string) mask0 fs0 :
  mode_parse_failed (getopt_loop argv).1 ->
  mkfifo_main argv mask0 fs0 = EXIT_FAILURE /\
  attempts (calls (mkfifo_run argv mask0 fs0)) = [] /\
  files (mkfifo_run argv mask0 fs0) = fs0.
Proof.
  intros Hbad.
  assert (existsb option_fails (getopt_loop argv).1 = true) as Hfail
    by (apply option_stage_fails_iff; auto).
  split.
  - rewrite mkfifo_main_eq, Hfail. reflexivity.
  - apply no_attempt. left. exact Hfail.
Qed.

Lemma C4_bad_mode_creates_nothing_witness :
  let argv := ["mkfifo"; "-m"; "abc"; "build/fifo"; "build/fifo-2"] in
  mode_parse_failed (P := Posix.platform) (getopt_loop argv).1 /\
  mkfifo_main argv (oct [0;2;2]) Posix.build_tree = EXIT_FAILURE /\
  attempts (calls (Posix.test_run argv)) = [] /\
  files (Posix.test_run argv) = Posix.build_tree.
Proof.
  cbn zeta.
  assert (mode_parse_failed (P := Posix.platform)
            (getopt_loop ["mkfifo"; "-m"; "abc"; "build/fifo"; "build/fifo-2"]).1)
    as Hbad.
  { exists "abc". split; [| reflexivity]. vm_compute. left. }
  split; [exact Hbad |].
  exact (C4_bad_mode_creates_nothing (P := Posix.platform) _ _ _ Hbad).
Defined.

(** C5 (as amended). With no operand the exit status is Failure and mkfifo
    is never called; the diagnostic, whose text is "missing file...", is
    printed exactly when the option loop had left the status at Success. *)
Theorem C5_missing_operand `{P : Platform} (argv : list string) mask0 fs0 :
  operands argv = [] ->
  mkfifo_main argv mask0 fs0 = EXIT_FAILURE /\
  attempts (calls (mkfifo_run argv mask0 fs0)) = [] /\
  files (mkfifo_run argv mask0 fs0) = fs0 /\
  (CWarn false "missing file..." ∈ calls (mkfifo_run argv mask0 fs0) <->
   status (scan_options (getopt_loop argv).1 (init mask0 fs0)) = EXIT_SUCCESS).
Proof.
  intros Hops. split; [| split; [| split]].
  - rewrite mkfifo_main_eq, bool_decide_eq_true_2 by exact Hops.
    destruct (existsb option_fails _); reflexivity.
  - apply no_attempt. right. exact Hops.
  - apply no_attempt. right. exact Hops.
  - rewrite scanned_success, mkfifo_run_eq. cbn zeta.
    rewrite bool_decide_eq_true_2 by exact Hops.
    destruct (existsb option_fails _); split; try reflexivity; try discriminate.
    + intros H. apply scan_options_warnx in H. inversion H.
    + intros _. rewrite mkfifo_warn_eq. cbn [calls].
      apply elem_of_app. right. left.
Qed.

Lemma C5_missing_operand_witness :
  operands ["mkfifo"; "-m"; "644"] = [] /\
  mkfifo_main ["mkfifo"; "-m"; "644"] (oct [0;2;2]) Posix.build_tree = EXIT_FAILURE /\
  attempts (calls (Posix.test_run ["mkfifo"; "-m"; "644"])) = [] /\
  files (Posix.test_run ["mkfifo"; "-m"; "644"]) = Posix.build_tree /\
  (CWarn false "missing file..." ∈ calls (Posix.test_run ["mkfifo"; "-m"; "644"]) <->
   status (scan_options (getopt_loop ["mkfifo"; "-m"; "644"]).1
             (init (oct [0;2;2]) Posix.build_tree)) = EXIT_SUCCESS).
Proof.
  split; [reflexivity |].
  apply (C5_missing_operand (P := Posix.platform)). reflexivity.
Defined.

(** C5 as stated fails twice over: with no operand and nothing else on the
    command line the text printed is not "missing file operand", and after
    an option error nothing at all is printed through vwarn or vwarnx. *)
Lemma C5_counterexample :
  ~ (operands ["mkfifo"] = [] ->
     exists b, CWarn b "missing file operand" ∈ calls (Posix.test_run ["mkfifo"])) /\
  ~ (operands ["mkfifo"; "-a"] = [] ->
     exists b msg, CWarn b msg ∈ calls (Posix.test_run ["mkfifo"; "-a"])).
Proof.
  split.
  - intros Hclaim. destruct (Hclaim eq_refl) as [b H]. vm_compute in H.
    apply list_elem_of_singleton in H. discriminate.
  - intros Hclaim. destruct (Hclaim eq_refl) as (b & msg & H). vm_compute in H.
    inversion H.
Qed.

(** The runs of that counterexample. *)
Example C5_trace :
  calls (Posix.test_run ["mkfifo"]) = [CWarn false "missing file..."] /\
  calls (Posix.test_run ["mkfifo"; "-a"]) = [] /\
  mkfifo_main ["mkfifo"; "-a"] (oct [0;2;2]) Posix.build_tree = EXIT_FAILURE.
Proof. repeat split. Qed.

(** C6. When getopt meets an unrecognized option character the exit status
    is Failure and nothing is created, whatever the operands and the modes;
    the loop goes on all the same: every result getopt returns after the
    error is still handled, so each -m of the command line reaches
    [setmode]. *)
Theorem C6_unrecognized_option `{P : Platform} (argv : list string) mask0 fs0 :
  unrecognized_option (getopt_loop argv).1 ->
  mkfifo_main argv mask0 fs0 = EXIT_FAILURE /\
  attempts (calls (mkfifo_run argv mask0 fs0)) = [] /\
  setmode_calls (calls (mkfifo_run argv mask0 fs0))
    = mode_options (getopt_loop argv).1 /\
  forall pre c post,
    (getopt_loop argv).1 = pre ++ GotErr c :: post ->
    mkfifo_run argv mask0 fs0 =
    scan_options post
      (set_status EXIT_FAILURE (scan_options pre (init mask0 fs0))).
Proof.
  intros Hbad.
  assert (existsb option_fails (getopt_loop argv).1 = true) as Hfail
    by (apply option_stage_fails_iff; auto).
  split; [| split; [| split]].
  - rewrite mkfifo_main_eq, Hfail. reflexivity.
  - apply no_attempt. left. exact Hfail.
  - apply run_setmode_calls.
  - intros pre c post Hsplit.
    rewrite mkfifo_run_eq, Hfail. cbn zeta.
    rewrite Hsplit, scan_options_app. reflexivity.
Qed.

Lemma C6_unrecognized_option_witness :
  let argv := ["mkfifo"; "-a"; "-m"; "600"; "build/fifo"] in
  unrecognized_option (getopt_loop argv).1 /\
  mkfifo_main argv (oct [0;2;2]) Posix.build_tree = EXIT_FAILURE /\
  attempts (calls (Posix.test_run argv)) = [] /\
  setmode_calls (calls (Posix.test_run argv)) = mode_options (getopt_loop argv).1 /\
  forall pre c post,
    (getopt_loop argv).1 = pre ++ GotErr c :: post ->
    Posix.test_run argv =
    scan_options post
      (set_status EXIT_FAILURE (scan_options pre (init (oct [0;2;2]) Posix.build_tree))).
Proof.
  cbn zeta.
  assert (unrecognized_option (getopt_loop ["mkfifo"; "-a"; "-m"; "600"; "build/fifo"]).1)
    as Hbad.
  { exists "a"%char. split; [vm_compute; left | discriminate]. }
  split; [exact Hbad |].
  exact (C6_unrecognized_option (P := Posix.platform) _ _ _ Hbad).
Defined.

(** After the rejected -a, the -m that follows is still processed. *)
Example C6_trace :
  calls (Posix.test_run ["mkfifo"; "-a"; "-m"; "600"; "build/fifo"]) =
  [CUmask 0; CSetmode "600"].
Proof. reflexivity. Qed.

(** C7. When [setmode] accepts the argument of -m, the mode field becomes
    the compiled mode applied to the base 0666, after the file-creation
    mask has been set to zero; the mask stays zero, so every creation of the
    run passes that mode under an empty mask and the node gets exactly
    these bits.  A pure octal numeral gives its own value, whatever the
    base. *)
Theorem C7_mode_resolution :
  (forall (P : Platform) a cm (s : machine),
     setmode 0 a = Some cm ->
     let s' := mkfifo_parse_mode a s in
     mode (ctx s') = getmode cm (oct [6;6;6]) /\
     cmask s' = 0 /\ status s' = status s /\ files s' = files s /\
     calls s' = calls s ++ [CUmask 0; CSetmode a]) /\
  (forall (P : Platform) argv mask0 fs0 front a cm,
     mode_options (getopt_loop argv).1 = front ++ [a] ->
     setmode 0 a = Some cm ->
     forall att, att ∈ attempts (calls (mkfifo_run argv mask0 fs0)) ->
       a_mode att = getmode cm (oct [6;6;6]) /\ a_mask att = 0) /\
  (forall argv mask0 (fs0 : gmap string Posix.node) front a,
     mode_options (getopt_loop argv).1 = front ++ [a] ->
     forall att, att ∈ attempts (calls (mkfifo_run argv mask0 fs0)) ->
       a_ret att = 0 ->
       files (mkfifo_run argv mask0 fs0) !! a_path att
         = Some (Posix.Fifo (a_mode att))) /\
  (forall ds (s : @machine Posix.platform),
     ds <> [] -> Forall (fun d => 0 <= d < 8) ds ->
     mode (ctx (mkfifo_parse_mode (ModeCompiler.numeral ds) s)) = oct ds /\
     exists cm, ModeCompiler.compile_mode (ModeCompiler.numeral ds) = Some cm /\
                forall base, ModeCompiler.apply_mode cm base = oct ds).
Proof.
  split; [| split; [| split]].
  - intros P a cm s Hset. cbn zeta. rewrite mkfifo_parse_mode_eq, Hset.
    repeat split.
  - intros P argv mask0 fs0 front a cm Hm Hset att Hatt.
    destruct (run_attempt_args argv mask0 fs0 att Hatt) as [-> ->].
    split.
    + eapply scan_options_mode_last; eassumption.
    + rewrite scan_options_cmask, Hm. destruct front; reflexivity.
  - intros argv mask0 fs0 front a Hm att Hatt Hret.
    rewrite (created_run argv mask0 fs0 att Hatt Hret).
    destruct (run_attempt_args (P := Posix.platform) argv mask0 fs0 att Hatt)
      as [_ ->].
    rewrite scan_options_cmask, Hm.
    destruct front; cbn [app]; change (Z.lnot 0) with (-1);
      rewrite Z.land_m1_r; reflexivity.
  - intros ds s Hne Hds.
    pose proof (compile_octal _ _ (parse_octal_numeral ds Hne Hds)) as Hcm.
    split.
    + rewrite mkfifo_parse_mode_eq.
      change (setmode 0 (ModeCompiler.numeral ds))
        with (ModeCompiler.compile_mode (ModeCompiler.numeral ds)).
      rewrite Hcm. reflexivity.
    + eexists. split; [exact Hcm | reflexivity].
Qed.

Lemma C7_mode_resolution_witness :
  let argv := ["mkfifo"; "-m"; "u=rw,go-w"; "-m"; "123"; "build/fifo"] in
  (mode_options (getopt_loop argv).1 = ["u=rw,go-w"] ++ ["123"] /\
   @setmode Posix.platform 0 "123" = Some (ModeCompiler.Literal (oct [1;2;3]))) /\
  (forall att, att ∈ attempts (calls (Posix.test_run argv)) ->
     a_mode att = oct [1;2;3] /\ a_mask att = 0) /\
  ([1;2;3] <> [] /\ Forall (fun d => 0 <= d < 8) [1;2;3]) /\
  mode (ctx (mkfifo_parse_mode "123" (init (oct [0;2;2]) Posix.build_tree)))
    = oct [1;2;3].
Proof.
  cbn zeta.
  assert (Forall (fun d => 0 <= d < 8) [1;2;3]) as Hds
    by (repeat constructor; lia).
  split; [split; reflexivity |]. split.
  - exact (proj1 (proj2 C7_mode_resolution) Posix.platform
             ["mkfifo"; "-m"; "u=rw,go-w"; "-m"; "123"; "build/fifo"]
             (oct [0;2;2]) Posix.build_tree ["u=rw,go-w"] "123"
             (ModeCompiler.Literal (oct [1;2;3])) eq_refl eq_refl).
  - split; [split; [discriminate | exact Hds] |].
    exact (proj1 (proj2 (proj2 (proj2 C7_mode_resolution)) [1;2;3]
                   (init (oct [0;2;2]) Posix.build_tree)
                   ltac:(discriminate) Hds)).
Defined.

(** Symbolic expressions against the base 0666, and malformed ones. *)
Example C7_symbolic :
  (fun e => (fun cm => ModeCompiler.apply_mode cm (oct [6;6;6]))
              <$> ModeCompiler.compile_mode e)
    <$> ["u=rw,go-w"; "a+x"; "644"; "abc"; ""; "128"]
  = [Some (oct [6;4;4]); Some (oct [7;7;7]); Some (oct [6;4;4]);
     None; None; None].
Proof. reflexivity. Qed.

(** C8. The status starts as Success; the run is a sequence of elementary
    steps, none of which turns Failure back into Success: once the status
    is Failure after some of the option results, or after some of the
    operands, it is Failure at exit. *)
Theorem C8_status_monotonic `{P : Platform} :
  (forall mask0 fs0, status (init mask0 fs0) = EXIT_SUCCESS) /\
  (forall argv mask0 fs0, rtc step (init mask0 fs0) (mkfifo_run argv mask0 fs0)) /\
  (forall s s', rtc step s s' ->
     status s = EXIT_FAILURE -> status s' = EXIT_FAILURE) /\
  (forall argv mask0 fs0 pre post,
     (getopt_loop argv).1 = pre ++ post ->
     status (scan_options pre (init mask0 fs0)) = EXIT_FAILURE ->
     mkfifo_main argv mask0 fs0 = EXIT_FAILURE) /\
  (forall argv mask0 fs0 tried todo,
     operands argv = tried ++ todo ->
     status (create_paths tried
               (scan_options (getopt_loop argv).1 (init mask0 fs0))) = EXIT_FAILURE ->
     mkfifo_main argv mask0 fs0 = EXIT_FAILURE).
Proof.
  split; [reflexivity |]. split; [| split; [exact steps_sticky | split]].
  - intros argv mask0 fs0. unfold mkfifo_run.
    etrans; [apply scan_options_steps | apply create_stage_steps].
  - intros argv mask0 fs0 pre post Hsplit Hpre.
    apply (steps_sticky (scan_options pre (init mask0 fs0))); [| exact Hpre].
    unfold mkfifo_run. rewrite Hsplit, scan_options_app.
    etrans; [apply scan_options_steps | apply create_stage_steps].
  - intros argv mask0 fs0 tried todo Hsplit Htried.
    unfold mkfifo_main. fold (status (mkfifo_run argv mask0 fs0)).
    rewrite mkfifo_run_eq. cbn zeta.
    pose proof (scanned_status argv mask0 fs0) as Hst.
    destruct (existsb option_fails _); [exact Hst |].
    case_bool_decide as Hops; [reflexivity |].
    apply (steps_sticky (create_paths tried
             (scan_options (getopt_loop argv).1 (init mask0 fs0))));
      [| exact Htried].
    rewrite Hsplit. unfold create_paths at 2. rewrite foldl_app.
    apply create_paths_steps.
Qed.

Lemma C8_status_monotonic_witness :
  let argv := ["mkfifo"; "-a"; "-m"; "600"; "build/fifo"] in
  ((getopt_loop argv).1 = [GotErr "a"] ++ [GotOpt "m" "600"] /\
   status (scan_options [GotErr "a"] (init (oct [0;2;2]) Posix.build_tree))
     = EXIT_FAILURE) /\
  mkfifo_main argv (oct [0;2;2]) Posix.build_tree = EXIT_FAILURE.
Proof.
  cbn zeta. split; [split; reflexivity |].
  exact (proj1 (proj2 (proj2 (proj2 (C8_status_monotonic (P := Posix.platform)))))
           ["mkfifo"; "-a"; "-m"; "600"; "build/fifo"] (oct [0;2;2])
           Posix.build_tree [GotErr "a"] [GotOpt "m" "600"] eq_refl eq_refl).
Defined.

(** C9. umask is called, with zero, once for each -m and nowhere else.
    Without -m the mask is the inherited one from start to end: every
    creation passes 0666 under that mask, and on the reference platform a
    node that is created has the bits [0666 & ~mask], 0644 under 022 but
    0666 under 0. *)
Theorem C9_umask_only_with_m :
  (forall (P : Platform) argv mask0 fs0,
     umask_calls (calls (mkfifo_run argv mask0 fs0))
       = replicate (length (mode_options (getopt_loop argv).1)) 0) /\
  (forall (P : Platform) argv mask0 fs0,
     mode_options (getopt_loop argv).1 = [] ->
     umask_calls (calls (mkfifo_run argv mask0 fs0)) = [] /\
     cmask (mkfifo_run argv mask0 fs0) = mask0 /\
     forall a, a ∈ attempts (calls (mkfifo_run argv mask0 fs0)) ->
       a_mode a = oct [6;6;6] /\ a_mask a = mask0) /\
  (forall argv mask0 (fs0 : gmap string Posix.node),
     mode_options (getopt_loop argv).1 = [] ->
     forall a, a ∈ attempts (calls (mkfifo_run argv mask0 fs0)) ->
       a_ret a = 0 ->
       files (mkfifo_run argv mask0 fs0) !! a_path a
         = Some (Posix.Fifo (Z.land (oct [6;6;6]) (Z.lnot mask0)))) /\
  Z.land (oct [6;6;6]) (Z.lnot (oct [0;2;2])) = oct [6;4;4] /\
  Z.land (oct [6;6;6]) (Z.lnot 0) = oct [6;6;6].
Proof.
  assert (forall (P : Platform) argv mask0 fs0,
     mode_options (getopt_loop argv).1 = [] ->
     forall a, a ∈ attempts (calls (mkfifo_run argv mask0 fs0)) ->
       a_mode a = oct [6;6;6] /\ a_mask a = mask0) as Hargs.
  { intros P argv mask0 fs0 Hnom a Ha.
    destruct (run_attempt_args argv mask0 fs0 a Ha) as [-> ->].
    rewrite scan_options_mode_default, scan_options_cmask, Hnom by exact Hnom.
    split; reflexivity. }
  split; [| split; [| split; [| split; reflexivity]]].
  - intros P argv mask0 fs0. apply run_umask_calls.
  - intros P argv mask0 fs0 Hnom. split; [| split].
    + rewrite run_umask_calls, Hnom. reflexivity.
    + rewrite (proj2 (run_frame argv mask0 fs0)), scan_options_cmask, Hnom.
      reflexivity.
    + apply Hargs, Hnom.
  - intros argv mask0 fs0 Hnom a Ha Hret.
    rewrite (created_run argv mask0 fs0 a Ha Hret).
    destruct (Hargs Posix.platform argv mask0 fs0 Hnom a Ha) as [-> ->].
    reflexivity.
Qed.

Lemma C9_umask_only_with_m_witness :
  let argv := ["mkfifo"; "build/fifo"] in
  mode_options (getopt_loop argv).1 = [] /\
  (umask_calls (calls (Posix.test_run argv)) = [] /\
   cmask (Posix.test_run argv) = oct [0;2;2] /\
   forall a, a ∈ attempts (calls (Posix.test_run argv)) ->
     a_mode a = oct [6;6;6] /\ a_mask a = oct [0;2;2]).
Proof.
  cbn zeta. split; [reflexivity |].
  exact (proj1 (proj2 C9_umask_only_with_m) Posix.platform
           ["mkfifo"; "build/fifo"] (oct [0;2;2]) Posix.build_tree eq_refl).
Defined.

(** C10. When [setmode] refuses the argument of -m, the mode field keeps
    the value it had, be it the default or the result of an earlier -m;
    the status becomes Failure and the file system is untouched. *)
Theorem C10_failed_parse_keeps_mode `{P : Platform} (a : string) (s : machine) :
  setmode 0 a = None ->
  mode (ctx (mkfifo_parse_mode a s)) = mode (ctx s) /\
  status (mkfifo_parse_mode a s) = EXIT_FAILURE /\
  files (mkfifo_parse_mode a s) = files s /\
  forall rets mask0 fs0,
    mode (ctx (scan_options (rets ++ [GotOpt "m" a]) (init mask0 fs0)))
    = mode (ctx (scan_options rets (init mask0 fs0))).
Proof.
  intros Hset. rewrite mkfifo_parse_mode_eq, Hset. repeat split.
  intros rets mask0 fs0.
  rewrite scan_options_snoc, option_case_m, mkfifo_parse_mode_eq, Hset.
  reflexivity.
Qed.

Lemma C10_failed_parse_keeps_mode_witness :
  let s := scan_options [GotOpt "m" "600"] (init (oct [0;2;2]) Posix.build_tree) in
  @setmode Posix.platform 0 "abc" = None /\
  mode (ctx s) = oct [6;0;0] /\
  mode (ctx (mkfifo_parse_mode "abc" s)) = mode (ctx s) /\
  status (mkfifo_parse_mode "abc" s) = EXIT_FAILURE /\
  files (mkfifo_parse_mode "abc" s) = files s /\
  forall rets mask0 fs0,
    mode (ctx (scan_options (rets ++ [GotOpt "m" "abc"]) (init mask0 fs0)))
    = mode (ctx (scan_options rets (init mask0 fs0))).
Proof.
  cbn zeta. split; [reflexivity |]. split; [reflexivity |].
  apply (C10_failed_parse_keeps_mode (P := Posix.platform)). reflexivity.
Defined.

(** * Further properties of the program *)

(** ** Diagnostics *)

Lemma warn_calls_app (t u : list call) :
  warn_calls (t ++ u) = warn_calls t ++ warn_calls u.
Proof. apply omap_app. Qed.

Lemma failed_paths_app (t u : list call) :
  failed_paths (t ++ u) = failed_paths t ++ failed_paths u.
Proof. unfold failed_paths. rewrite attempts_app. apply omap_app. Qed.

Lemma warn_calls_nil_iff (t : list call) :
  warn_calls t = [] <-> forall b msg, CWarn b msg ∉ t.
Proof.
  split.
  - intros Hnil b msg Hin.
    assert ((b, msg) ∈ warn_calls t) as Hw
      by (apply list_elem_of_omap; exists (CWarn b msg); auto).
    rewrite Hnil in Hw. inversion Hw.
  - intros Hnone. destruct (warn_calls t) as [| [b msg] ws] eqn:E; [reflexivity |].
    assert ((b, msg) ∈ warn_calls t) as Hw by (rewrite E; left).
    apply list_elem_of_omap in Hw as ([] & Hin & Hsome); try discriminate.
    injection Hsome as -> ->. destruct (Hnone _ _ Hin).
Qed.

Lemma failed_paths_nil_iff (t : list call) :
  failed_paths t = [] <-> existsb failed (attempts t) = false.
Proof.
  unfold failed_paths. induction (attempts t) as [| a l IH]; [split; reflexivity |].
  cbn. destruct (failed a); cbn; [split; discriminate | exact IH].
Qed.

Section Diagnostics.
Context `{P : Platform}.
Implicit Types (s : machine) (rets : list getopt_ret) (ps : list string).

Lemma refused_modes_app (l1 l2 : list string) :
  refused_modes (l1 ++ l2) = refused_modes l1 ++ refused_modes l2.
Proof. apply omap_app. Qed.

Lemma refused_modes_nil_iff rets :
  refused_modes (mode_options rets) = [] <-> ~ mode_parse_failed rets.
Proof.
  split.
  - intros Hnil (a & Ha & Hset).
    assert (a ∈ refused_modes (mode_options rets)) as Hin.
    { apply list_elem_of_omap. exists a. rewrite Hset. auto. }
    rewrite Hnil in Hin. inversion Hin.
  - intros Hno. destruct (refused_modes (mode_options rets)) as [| a l] eqn:E;
      [reflexivity |].
    assert (a ∈ refused_modes (mode_options rets)) as Hin by (rewrite E; left).
    apply list_elem_of_omap in Hin as (a' & Ha' & Hsome).
    destruct (setmode 0 a') eqn:Hset; [discriminate |]. injection Hsome as ->.
    destruct Hno. exists a. auto.
Qed.

(** The option loop prints one "setmode: ..." per refused mode. *)
Lemma scan_options_warn rets s :
  warn_calls (calls (scan_options rets s)) =
  warn_calls (calls s) ++
  ((fun a => (true, "setmode: " +:+ a)) <$> refused_modes (mode_options rets)).
Proof.
  apply (scan_options_ind (fun rets s' =>
    warn_calls (calls s') =
    warn_calls (calls s) ++
    ((fun a => (true, "setmode: " +:+ a)) <$> refused_modes (mode_options rets)))).
  - cbn. rewrite app_nil_r. reflexivity.
  - intros rets' r s' IH.
    rewrite mode_options_app, refused_modes_app, fmap_app, app_assoc, <- IH.
    case_option r; cbn [calls set_status]; rewrite ?warn_calls_app.
    + change (mode_options [GotOpt "m" a]) with [a].
      unfold refused_modes. cbn. rewrite Eset. reflexivity.
    + change (mode_options [GotOpt "m" a]) with [a].
      unfold refused_modes. cbn. rewrite Eset. reflexivity.
    + rewrite mode_options_other by assumption. cbn. rewrite app_nil_r. reflexivity.
    + change (mode_options [GotErr c]) with (@nil string).
      cbn. rewrite app_nil_r. reflexivity.
Qed.

(** The creation loop prints one "cannot create fifo: ..." per failed call. *)
Lemma create_paths_warn ps s :
  attempts (calls s) = [] ->
  warn_calls (calls (create_paths ps s)) =
  warn_calls (calls s) ++
  ((fun p => (true, "cannot create fifo: " +:+ p))
     <$> failed_paths (calls (create_paths ps s))).
Proof.
  intros Hs.
  apply (create_paths_ind (fun _ s' =>
    warn_calls (calls s') =
    warn_calls (calls s) ++
    ((fun p => (true, "cannot create fifo: " +:+ p)) <$> failed_paths (calls s')))).
  - unfold failed_paths. rewrite Hs. cbn. rewrite app_nil_r. reflexivity.
  - intros _ p s' IH. rewrite mkfifo_path_eq. cbn [calls].
    rewrite warn_calls_app, failed_paths_app, fmap_app, app_assoc, <- IH.
    f_equal. unfold failed_paths, failed. cbn.
    destruct (_ =? 0); reflexivity.
Qed.

End Diagnostics.

(** The diagnostics of a run, in the order printed. *)
Lemma run_warn_calls `{P : Platform} (argv : list string) mask0 fs0 :
  let s1 := scan_options (getopt_loop argv).1 (init mask0 fs0) in
  let t := calls (mkfifo_run argv mask0 fs0) in
  warn_calls t =
  ((fun a => (true, "setmode: " +:+ a))
     <$> refused_modes (mode_options (getopt_loop argv).1)) ++
  (if status s1 =? EXIT_SUCCESS then
     if bool_decide (operands argv = [])
     then [(false, "missing file...")]
     else (fun p => (true, "cannot create fifo: " +:+ p)) <$> failed_paths t
   else []).
Proof.
  cbn zeta. rewrite mkfifo_run_eq, scanned_status. cbn zeta.
  assert (forall rets,
    warn_calls (calls (scan_options rets (init mask0 fs0))) =
    (fun a => (true, "setmode: " +:+ a)) <$> refused_modes (mode_options rets))
    as Hopts by (intros rets; rewrite scan_options_warn; reflexivity).
  destruct (existsb option_fails _).
  - change (EXIT_FAILURE =? EXIT_SUCCESS) with false. cbn match.
    rewrite app_nil_r. apply Hopts.
  - change (EXIT_SUCCESS =? EXIT_SUCCESS) with true. cbn match.
    case_bool_decide.
    + rewrite mkfifo_warn_eq. cbn [calls].
      rewrite warn_calls_app, Hopts. reflexivity.
    + rewrite create_paths_warn by apply scanned_attempts.
      rewrite Hopts. reflexivity.
Qed.

(** X1. The diagnostics of a run, in the order printed: one "setmode: a"
    for each -m argument [setmode] refuses; then, if the option loop left
    the status at Success, either the single "missing file..." (printed
    without the text of errno) when there is no operand, or one "cannot
    create fifo: p" for each creation that failed.  Nothing else is ever
    printed through [mkfifo_warn]: every diagnostic of the trace is the
    report of a refused mode, of a failed creation, or of the missing
    operand. *)
Theorem diagnostics_of_run `{P : Platform} (argv : list string) mask0 fs0 :
  let s1 := scan_options (getopt_loop argv).1 (init mask0 fs0) in
  let t := calls (mkfifo_run argv mask0 fs0) in
  warn_calls t =
    ((fun a => (true, "setmode: " +:+ a))
       <$> refused_modes (mode_options (getopt_loop argv).1)) ++
    (if status s1 =? EXIT_SUCCESS then
       if bool_decide (operands argv = [])
       then [(false, "missing file...")]
       else (fun p => (true, "cannot create fifo: " +:+ p)) <$> failed_paths t
     else []) /\
  forall b msg, CWarn b msg ∈ t ->
    (b = true /\ exists a, a ∈ mode_options (getopt_loop argv).1 /\
                           setmode 0 a = None /\ msg = "setmode: " +:+ a) \/
    (b = true /\ exists att, att ∈ attempts t /\ a_ret att <> 0 /\
                             msg = "cannot create fifo: " +:+ a_path att) \/
    (b = false /\ msg = "missing file..." /\ operands argv = []).
Proof.
  cbn zeta. pose proof (run_warn_calls argv mask0 fs0) as Hlist.
  cbn zeta in Hlist. split; [exact Hlist |].
  intros b msg Hin.
  assert ((b, msg) ∈ warn_calls (calls (mkfifo_run argv mask0 fs0))) as Hw
    by (apply list_elem_of_omap; exists (CWarn b msg); auto).
  rewrite Hlist in Hw. apply elem_of_app in Hw as [Hw | Hw].
  - (* a refused mode *)
    apply list_elem_of_fmap in Hw as (a & [= -> ->] & Ha).
    apply list_elem_of_omap in Ha as (a' & Ha' & Hsome).
    destruct (setmode 0 a') eqn:Hset; [discriminate |]. injection Hsome as ->.
    left. split; [reflexivity |]. exists a. auto.
  - destruct (_ =? EXIT_SUCCESS); [| inversion Hw].
    case_bool_decide as Hops.
    + (* the missing operand *)
      apply list_elem_of_singleton in Hw. injection Hw as -> ->.
      right; right. auto.
    + (* a failed creation *)
      apply list_elem_of_fmap in Hw as (q & [= -> ->] & Hq).
      apply list_elem_of_omap in Hq as (att & Hatt & Hsome).
      unfold failed in Hsome.
      destruct (Z.eqb_spec (a_ret att) 0) as [| Hret]; [discriminate |].
      injection Hsome as <-.
      right; left. split; [reflexivity |]. exists att. auto.
Qed.

(** X2. A run fails exactly when something was reported: the exit status
    is Failure if and only if [mkfifo_warn] printed a diagnostic or getopt
    rejected an option character (which getopt reports itself).  A run that
    succeeds prints nothing, and no failure of the program is silent. *)
Theorem failure_iff_reported `{P : Platform} (argv : list string) mask0 fs0 :
  mkfifo_main argv mask0 fs0 = EXIT_FAILURE <->
  (exists b msg, CWarn b msg ∈ calls (mkfifo_run argv mask0 fs0)) \/
  getopt_errors (getopt_loop argv).1 <> [].
Proof.
  assert ((exists b msg, CWarn b msg ∈ calls (mkfifo_run argv mask0 fs0)) <->
          warn_calls (calls (mkfifo_run argv mask0 fs0)) <> []) as ->.
  { rewrite warn_calls_nil_iff. split.
    - intros (b & msg & Hin) Hnone. exact (Hnone b msg Hin).
    - intros Hsome.
      destruct (warn_calls (calls (mkfifo_run argv mask0 fs0)))
        as [| [b msg] l] eqn:E.
      + destruct Hsome. intros b msg Hin.
        assert ((b, msg) ∈ warn_calls (calls (mkfifo_run argv mask0 fs0))) as Hw
          by (apply list_elem_of_omap; exists (CWarn b msg); auto).
        rewrite E in Hw. inversion Hw.
      + exists b, msg.
        assert ((b, msg) ∈ warn_calls (calls (mkfifo_run argv mask0 fs0))) as Hw
          by (rewrite E; left).
        apply list_elem_of_omap in Hw as ([] & Hin & Hsome'); try discriminate.
        injection Hsome' as -> ->. exact Hin. }
  pose proof (run_warn_calls argv mask0 fs0) as Hdiag. cbn zeta in Hdiag.
  rewrite scanned_status in Hdiag.
  pose proof (option_stage_fails_iff argv) as Hstage.
  pose proof (refused_modes_nil_iff (getopt_loop argv).1) as Hrefused.
  rewrite mkfifo_main_eq.
  destruct (existsb option_fails _) eqn:Efail.
  - (* the option loop failed: a refused mode, or an error of getopt *)
    split; [intros _ | reflexivity].
    destruct (proj1 Hstage eq_refl) as [(c & Hc & _) | [Hbad | Herr]].
    + right. intros Hnil. rewrite Hnil in Hc. inversion Hc.
    + left. rewrite Hdiag, app_nil_r. intros Hnil.
      apply fmap_nil_inv in Hnil. apply Hrefused in Hnil. contradiction.
    + right. intros Hnil. apply elem_of_getopt_errors in Herr.
      rewrite Hnil in Herr. inversion Herr.
  - (* the option loop succeeded: nothing refused, nothing rejected *)
    assert (getopt_errors (getopt_loop argv).1 = []) as Hnoerr.
    { destruct (getopt_errors (getopt_loop argv).1) as [| c l] eqn:E;
        [reflexivity |].
      assert (c ∈ getopt_errors (getopt_loop argv).1) as Hc by (rewrite E; left).
      assert (false = true) as Habs; [| discriminate].
      apply Hstage. destruct (decide (c = "m"%char)) as [-> | Hne].
      - right; right. apply elem_of_getopt_errors, Hc.
      - left. exists c. auto. }
    assert (refused_modes (mode_options (getopt_loop argv).1) = []) as Hnoref.
    { apply Hrefused. intros Hbad.
      assert (false = true) as Habs by (apply Hstage; auto). discriminate. }
    rewrite Hnoref in Hdiag. cbn [fmap list_fmap app] in Hdiag.
    change (EXIT_SUCCESS =? EXIT_SUCCESS) with true in Hdiag. cbn match in Hdiag.
    rewrite Hdiag, Hnoerr.
    case_bool_decide.
    + split; [intros _; left; discriminate | reflexivity].
    + pose proof (failed_paths_nil_iff (calls (mkfifo_run argv mask0 fs0))) as Hfp.
      destruct (existsb failed _).
      * split; [intros _; left | reflexivity].
        intros Hnil. apply fmap_nil_inv in Hnil. apply Hfp in Hnil. discriminate.
      * rewrite (proj2 Hfp eq_refl). split; [discriminate |].
        intros [Hx | Hx]; destruct Hx; reflexivity.
Qed.

(** ** Order of the calls, file system, mask, exit code *)

Section Order.
Context `{P : Platform}.
Implicit Types (s : machine) (ps : list string).

(** The creation loop calls neither umask nor setmode. *)
Lemma create_paths_calls ps s :
  exists t2, calls (create_paths ps s) = calls s ++ t2 /\
             umask_calls t2 = [] /\ setmode_calls t2 = [].
Proof.
  apply (create_paths_ind (fun _ s' =>
    exists t2, calls s' = calls s ++ t2 /\
               umask_calls t2 = [] /\ setmode_calls t2 = [])).
  - exists []. rewrite app_nil_r. auto.
  - intros _ p s' (t2 & Hcalls & Hu & Hm). rewrite mkfifo_path_eq. cbn [calls].
    eexists. rewrite Hcalls, <- app_assoc. split; [reflexivity |].
    rewrite umask_calls_app, setmode_calls_app, Hu, Hm.
    destruct (_ =? 0); split; reflexivity.
Qed.

Lemma attempt_in_trace (t : list call) (i : nat) p m k r :
  t !! i = Some (CMkfifo p m k r) -> attempts t <> [].
Proof.
  intros Hi Hnil.
  assert (Attempt p m k r ∈ attempts t) as Hin.
  { apply list_elem_of_omap. exists (CMkfifo p m k r).
    split; [eapply list_elem_of_lookup_2; exact Hi | reflexivity]. }
  rewrite Hnil in Hin. inversion Hin.
Qed.

(** The creation loop leaves in place whatever mkfifo itself preserves. *)
Lemma create_paths_files_inv (I : fs -> Prop) ps s :
  (forall p m k f, I f -> I (sys_mkfifo p m k f).2) ->
  I (files s) -> I (files (create_paths ps s)).
Proof.
  intros Hpres Hs.
  apply (create_paths_ind (fun _ s' => I (files s'))); [exact Hs |].
  intros _ p s' IH. rewrite mkfifo_path_eq. cbn [files]. apply Hpres, IH.
Qed.

End Order.

(** X3. In every run the option loop is over before the first creation:
    no call of umask or setmode comes after a call of mkfifo, so the mode
    and the mask are final when the first FIFO is created. *)
Theorem options_before_creations `{P : Platform}
    (argv : list string) mask0 fs0 (i j : nat) p m k r e :
  let t := calls (mkfifo_run argv mask0 fs0) in
  t !! i = Some (CMkfifo p m k r) ->
  t !! j = Some e ->
  (exists k', e = CUmask k') \/ (exists a, e = CSetmode a) ->
  (j < i)%nat.
Proof.
  cbn zeta. intros Hi Hj He.
  pose proof (attempt_in_trace _ _ _ _ _ _ Hi) as Hsome.
  destruct (existsb option_fails (getopt_loop argv).1) eqn:Efail.
  { destruct Hsome. apply no_attempt. left. exact Efail. }
  destruct (decide (operands argv = [])) as [Hops | Hops].
  { destruct Hsome. apply no_attempt. right. exact Hops. }
  rewrite mkfifo_run_eq, Efail in Hi, Hj. cbn zeta in Hi, Hj.
  rewrite bool_decide_eq_false_2 in Hi, Hj by exact Hops.
  destruct (create_paths_calls (operands argv)
              (scan_options (getopt_loop argv).1 (init mask0 fs0)))
    as (t2 & Hcalls & Hu & Hm).
  rewrite Hcalls in Hi, Hj.
  set (t1 := calls (scan_options (getopt_loop argv).1 (init mask0 fs0))) in *.
  assert (length t1 <= i)%nat as Hi1.
  { destruct (decide (i < length t1)%nat) as [Hlt |]; [| lia].
    rewrite lookup_app_l in Hi by exact Hlt.
    destruct (attempt_in_trace _ _ _ _ _ _ Hi). apply scanned_attempts. }
  destruct (decide (j < length t1)%nat) as [Hlt | Hge]; [lia |].
  rewrite lookup_app_r in Hj by lia.
  apply list_elem_of_lookup_2 in Hj.
  destruct He as [[k' ->] | [a ->]].
  - assert (k' ∈ umask_calls t2) as Hin
      by (apply list_elem_of_omap; exists (CUmask k'); auto).
    rewrite Hu in Hin. inversion Hin.
  - assert (a ∈ setmode_calls t2) as Hin
      by (apply list_elem_of_omap; exists (CSetmode a); auto).
    rewrite Hm in Hin. inversion Hin.
Qed.

Lemma options_before_creations_witness :
  let t := calls (Posix.test_run ["mkfifo"; "-m"; "600"; "build/fifo"]) in
  (t !! 2%nat = Some (CMkfifo "build/fifo" (oct [6;0;0]) 0 0) /\
   t !! 1%nat = Some (CSetmode "600") /\
   ((exists k', CSetmode "600" = CUmask k') \/ (exists a, CSetmode "600" = CSetmode a))) /\
  (1 < 2)%nat.
Proof.
  cbn zeta.
  assert ((exists k', CSetmode "600" = CUmask k') \/
          (exists a, CSetmode "600" = CSetmode a)) as He
    by (right; exists "600"; reflexivity).
  split; [split; [reflexivity | split; [reflexivity | exact He]] |].
  exact (options_before_creations (P := Posix.platform)
           ["mkfifo"; "-m"; "600"; "build/fifo"] (oct [0;2;2]) Posix.build_tree
           2 1 "build/fifo" (oct [6;0;0]) 0 0 (CSetmode "600")
           eq_refl eq_refl He).
Defined.

(** X4. The program changes the file system only through mkfifo: whatever
    property of the file system every call of mkfifo preserves still holds
    when the run ends. *)
Theorem file_system_invariant `{P : Platform} (I : fs -> Prop)
    (argv : list string) mask0 fs0 :
  (forall p m k f, I f -> I (sys_mkfifo p m k f).2) ->
  I fs0 ->
  I (files (mkfifo_run argv mask0 fs0)).
Proof.
  intros Hpres H0. rewrite mkfifo_run_eq. cbn zeta.
  assert (I (files (scan_options (getopt_loop argv).1 (init mask0 fs0)))) as H1
    by (rewrite scan_options_files; exact H0).
  destruct (existsb option_fails _); [exact H1 |].
  case_bool_decide; [exact H1 |].
  apply create_paths_files_inv; assumption.
Qed.

(** On the reference platform mkfifo leaves every existing node alone. *)
Lemma posix_mkfifo_keeps q (n : Posix.node) p m k (f : gmap string Posix.node) :
  f !! q = Some n -> (Posix.mkfifo p m k f).2 !! q = Some n.
Proof.
  intros Hq. destruct (posix_mkfifo_spec p m k f) as [(_ & Hnone & ->) | (_ & ->)];
    [| exact Hq].
  rewrite lookup_insert_ne; [exact Hq | congruence].
Qed.

Lemma file_system_invariant_witness :
  let argv := ["mkfifo"; "build/fifo"; "build"] in
  let I := fun f : gmap string Posix.node => f !! "build" = Some Posix.Dir in
  ((forall p m k f, I f -> I (Posix.mkfifo p m k f).2) /\ I Posix.build_tree) /\
  I (files (Posix.test_run argv)).
Proof.
  cbn zeta.
  assert (forall p m k (f : gmap string Posix.node),
            f !! "build" = Some Posix.Dir ->
            (Posix.mkfifo p m k f).2 !! "build" = Some Posix.Dir) as Hpres
    by (intros p m k f; apply posix_mkfifo_keeps).
  split; [split; [exact Hpres | reflexivity] |].
  exact (file_system_invariant (P := Posix.platform)
           (fun f : gmap string Posix.node => f !! "build" = Some Posix.Dir)
           ["mkfifo"; "build/fifo"; "build"] (oct [0;2;2]) Posix.build_tree
           Hpres eq_refl).
Defined.

(** X5. umask(0) is never undone: at exit the file-creation mask is 0 as
    soon as one -m was given, whether [setmode] accepted its argument or
    not, and it is the inherited mask otherwise; every mkfifo call of the
    run was made under that same mask. *)
Theorem mask_at_exit `{P : Platform} (argv : list string) mask0 fs0 :
  cmask (mkfifo_run argv mask0 fs0) =
    match mode_options (getopt_loop argv).1 with
    | [] => mask0
    | _ :: _ => 0
    end /\
  forall a, a ∈ attempts (calls (mkfifo_run argv mask0 fs0)) ->
    a_mask a = cmask (mkfifo_run argv mask0 fs0).
Proof.
  destruct (run_frame argv mask0 fs0) as [_ Hk]. cbn zeta in Hk.
  split.
  - rewrite Hk. apply scan_options_cmask.
  - intros a Ha. rewrite Hk.
    exact (proj2 (run_attempt_args argv mask0 fs0 a Ha)).
Qed.

(** X6. The exit code of the process is 0 or 1, nothing else. *)
Theorem main_exit_code `{P : Platform} (argv : list string) mask0 fs0 :
  main argv mask0 fs0 = EXIT_SUCCESS \/ main argv mask0 fs0 = EXIT_FAILURE.
Proof.
  unfold main. rewrite mkfifo_main_eq.
  destruct (existsb option_fails _); [right; reflexivity |].
  case_bool_decide; [right; reflexivity |].
  destruct (existsb failed _); [right | left]; reflexivity.
Qed.

(** * The test harness *)

(** The suite passes on the reference platform under the mask 022 and
    leaves the directory as it found it; under an empty mask it stops at the
    first check of the permissions. *)
Example test_all_022 :
  test_all (oct [0;2;2]) Posix.build_tree = Some Posix.build_tree.
Proof. vm_compute. reflexivity. Qed.

Example test_all_000 : test_all 0 Posix.build_tree = None.
Proof. vm_compute. reflexivity. Qed.

(** ** The command lines of the harness *)

Lemma getopt_args_plain f rest :
  plain_operand f = true -> getopt_args (f :: rest) = ([], 0%nat).
Proof.
  destruct f as [| c cs]; [reflexivity |].
  destruct (Ascii.eqb_spec c "-") as [-> | Hc].
  - destruct cs; [reflexivity | discriminate].
  - intros _. destruct c as [[] [] [] [] [] [] [] []]; try reflexivity.
    contradiction Hc. reflexivity.
Qed.

Lemma getopt_args_operands (file_list : list string) :
  (forall f, head file_list = Some f -> plain_operand f = true) ->
  getopt_args file_list = ([], 0%nat).
Proof.
  destruct file_list as [| f rest]; [reflexivity |].
  intros Hf. apply getopt_args_plain, Hf. reflexivity.
Qed.

Lemma getopt_args_extra rest :
  getopt_args ("-a" :: rest) =
  (GotErr "a" :: (getopt_args rest).1, S (getopt_args rest).2).
Proof.
  rewrite getopt_args_cluster by discriminate.
  change (getopt_cluster "a" (head rest)) with ([GotErr "a"], false).
  destruct (getopt_args rest) as [rs n]. destruct rest; reflexivity.
Qed.

Lemma getopt_args_mode m rest :
  getopt_args ("-m" :: m :: rest) =
  (GotOpt "m" m :: (getopt_args rest).1, S (S (getopt_args rest).2)).
Proof.
  rewrite getopt_args_cluster by discriminate.
  change (getopt_cluster "m" (head (m :: rest))) with ([GotOpt "m" m], true).
  destruct (getopt_args rest) as [rs n]. reflexivity.
Qed.

Lemma getopt_permuting_plain f rest :
  plain_operand f = true ->
  getopt_permuting (f :: rest) =
  ((getopt_permuting rest).1, f :: (getopt_permuting rest).2).
Proof.
  destruct (getopt_permuting rest) as [rs ops] eqn:E.
  destruct f as [| c cs]; [cbn; rewrite E; reflexivity |].
  destruct (Ascii.eqb_spec c "-") as [-> | Hc].
  - destruct cs; [cbn; rewrite E; reflexivity | discriminate].
  - intros _. destruct c as [[] [] [] [] [] [] [] []];
      try (cbn; rewrite E; reflexivity).
    contradiction Hc. reflexivity.
Qed.

Lemma getopt_permuting_operands (file_list : list string) :
  Forall (fun f => plain_operand f = true) file_list ->
  getopt_permuting file_list = ([], file_list).
Proof.
  induction 1 as [| f rest Hf _ IH]; [reflexivity |].
  rewrite (getopt_permuting_plain f rest Hf), IH. reflexivity.
Qed.

Lemma getopt_permuting_extra rest :
  getopt_permuting ("-a" :: rest) =
  (GotErr "a" :: (getopt_permuting rest).1, (getopt_permuting rest).2).
Proof.
  cbn [getopt_permuting].
  change (getopt_cluster "a" (head rest)) with ([GotErr "a"], false).
  destruct (getopt_permuting rest) as [rs ops]. destruct rest; reflexivity.
Qed.

Lemma getopt_permuting_mode m rest :
  getopt_permuting ("-m" :: m :: rest) =
  (GotOpt "m" m :: (getopt_permuting rest).1, (getopt_permuting rest).2).
Proof.
  cbn [getopt_permuting].
  change (getopt_cluster "m" (head (m :: rest))) with ([GotOpt "m" m], true).
  destruct (getopt_permuting rest) as [rs ops]. reflexivity.
Qed.

(** X7. A command line that fits the buffers of [test_mkfifo_main] and
    whose files are all plain operands (none starts with '-', "-" alone
    apart) is read by the program as intended: getopt returns an error for
    "-a" when [extra_arg] is set, then -m with [mode_str] as its argument
    when there is one, and the operands are the files of the list.  A
    scanner that permutes argv returns and leaves the same, so the run of
    the program on such a command line is the same under both. *)
Theorem harness_command_line (mode_str : option string) (extra_arg : bool)
    (file_list : list string) :
  fits (test_argv mode_str extra_arg file_list) = true ->
  Forall (fun f => plain_operand f = true) file_list ->
  let argv := test_argv mode_str extra_arg file_list in
  let rets := (if extra_arg then [GotErr "a"] else []) ++
              (match mode_str with Some m => [GotOpt "m" m] | None => [] end) in
  (getopt_loop argv).1 = rets /\
  operands argv = file_list /\
  getopt_permuting (tail argv) = (rets, file_list) /\
  (length argv <= MAX_ARGS)%nat /\
  forall (P : Platform) mask0 fs0,
    mkfifo_run argv mask0 fs0 = run_scanned rets file_list mask0 fs0.
Proof.
  intros Hfits Hplain. cbn zeta.
  assert (getopt_args file_list = ([], 0%nat)) as Hfiles.
  { apply getopt_args_operands. intros f Hf.
    destruct file_list as [| f' rest]; [discriminate |].
    injection Hf as ->. apply (Forall_inv Hplain). }
  pose proof (getopt_permuting_operands file_list Hplain) as Hperm.
  assert ((getopt_loop (test_argv mode_str extra_arg file_list)).1 =
          (if extra_arg then [GotErr "a"] else []) ++
          (match mode_str with Some m => [GotOpt "m" m] | None => [] end))
    as Hrets.
  { unfold getopt_loop, test_argv. cbn [app tail].
    destruct extra_arg, mode_str as [m |]; cbn [app];
      rewrite ?getopt_args_extra, ?getopt_args_mode, Hfiles; reflexivity. }
  assert (operands (test_argv mode_str extra_arg file_list) = file_list) as Hops.
  { unfold operands, getopt_loop, test_argv. cbn [app tail].
    destruct extra_arg, mode_str as [m |]; cbn [app];
      rewrite ?getopt_args_extra, ?getopt_args_mode, Hfiles; reflexivity. }
  split; [exact Hrets | split; [exact Hops | split; [| split]]].
  - unfold test_argv. cbn [app tail].
    destruct extra_arg, mode_str as [m |]; cbn [app];
      rewrite ?getopt_permuting_extra, ?getopt_permuting_mode, Hperm; reflexivity.
  - unfold fits in Hfits. apply andb_prop in Hfits as [Hlen _].
    apply Nat.leb_le, Hlen.
  - intros P mask0 fs0. rewrite mkfifo_run_scanned, Hrets, Hops. reflexivity.
Qed.

Lemma harness_command_line_witness :
  let argv := test_argv (Some "abc") true [PATH_MKFIFO; PATH_MKFIFO_2] in
  (fits argv = true /\
   Forall (fun f => plain_operand f = true) [PATH_MKFIFO; PATH_MKFIFO_2]) /\
  (getopt_loop argv).1 = [GotErr "a"] ++ [GotOpt "m" "abc"] /\
  operands argv = [PATH_MKFIFO; PATH_MKFIFO_2] /\
  getopt_permuting (tail argv)
    = ([GotErr "a"] ++ [GotOpt "m" "abc"], [PATH_MKFIFO; PATH_MKFIFO_2]) /\
  (length argv <= MAX_ARGS)%nat /\
  forall (P : Platform) mask0 fs0,
    mkfifo_run argv mask0 fs0 =
    run_scanned ([GotErr "a"] ++ [GotOpt "m" "abc"])
      [PATH_MKFIFO; PATH_MKFIFO_2] mask0 fs0.
Proof.
  cbn zeta.
  assert (Forall (fun f => plain_operand f = true) [PATH_MKFIFO; PATH_MKFIFO_2])
    as Hplain by (repeat constructor).
  split; [split; [reflexivity | exact Hplain] |].
  exact (harness_command_line (Some "abc") true [PATH_MKFIFO; PATH_MKFIFO_2]
           eq_refl Hplain).
Defined.

(** Where the two scanners part: an option behind an operand. *)
Example scanners_differ :
  getopt_loop ["mkfifo"; "build/fifo"; "-x"] = ([], 1%nat) /\
  getopt_permuting ["build/fifo"; "-x"] = ([GotErr "x"], ["build/fifo"]).
Proof. split; reflexivity. Qed.

(** ** Checking and removing a FIFO *)

Lemma stat_is_fifo perm :
  S_ISFIFO (Z.lor S_IFIFO (Z.land perm (oct [7;7;7;7]))) = true.
Proof.
  unfold S_ISFIFO. rewrite Z.land_lor_distr_l, <- Z.land_assoc.
  change (Z.land (oct [7;7;7;7]) S_IFMT) with 0.
  rewrite Z.land_0_r. reflexivity.
Qed.

Lemma stat_perms perm :
  Z.land (Z.lor S_IFIFO (Z.land perm (oct [7;7;7;7]))) (oct [7;7;7])
  = Z.land perm (oct [7;7;7]).
Proof.
  rewrite Z.land_lor_distr_l, <- Z.land_assoc.
  change (Z.land S_IFIFO (oct [7;7;7])) with 0.
  change (Z.land (oct [7;7;7;7]) (oct [7;7;7])) with (oct [7;7;7]).
  reflexivity.
Qed.

(** What the check does on a FIFO of the reference platform. *)
Lemma check_fifo p e perm (t : gmap string Posix.node) :
  t !! p = Some (Posix.Fifo perm) ->
  test_check_and_remove_fifo p e t =
  if Z.land perm (oct [7;7;7]) =? e then Some (delete p t) else None.
Proof.
  intros Hp. unfold test_check_and_remove_fifo.
  change (@sys_stat _ PosixTest.platform p t) with (PosixTest.stat p t).
  change (@sys_remove _ PosixTest.platform p t) with (PosixTest.remove p t).
  unfold PosixTest.stat, PosixTest.remove. rewrite Hp.
  rewrite stat_is_fifo.
  change (Z.lor (Z.lor (Z.lor (Z.lor S_IRUSR S_IWUSR) S_IXUSR)
                       (Z.lor (Z.lor S_IRGRP S_IWGRP) S_IXGRP))
                (Z.lor (Z.lor S_IROTH S_IWOTH) S_IXOTH)) with (oct [7;7;7]).
  rewrite stat_perms. destruct (_ =? e); reflexivity.
Qed.

(** X8. [test_check_and_remove_fifo] passes exactly on a FIFO whose nine
    permission bits are the expected ones, and then removes that node and
    nothing else; on a missing path, on a directory, or on other
    permissions an assertion fails. *)
Theorem check_and_remove_spec p e (t t' : gmap string Posix.node) :
  test_check_and_remove_fifo p e t = Some t' <->
  exists perm, t !! p = Some (Posix.Fifo perm) /\
               Z.land perm (oct [7;7;7]) = e /\ t' = delete p t.
Proof.
  destruct (t !! p) as [[| perm] |] eqn:Hp.
  - (* a directory *)
    split; [| intros (perm & [=] & _)].
    unfold test_check_and_remove_fifo.
    change (@sys_stat _ PosixTest.platform p t) with (PosixTest.stat p t).
    unfold PosixTest.stat. rewrite Hp. discriminate.
  - rewrite (check_fifo p e perm t Hp).
    destruct (Z.eqb_spec (Z.land perm (oct [7;7;7])) e) as [He | He]; split.
    + intros [= <-]. exists perm. auto.
    + intros (perm' & [= <-] & _ & ->). reflexivity.
    + discriminate.
    + intros (perm' & [= <-] & He' & _). contradiction.
  - (* no such path *)
    split; [| intros (perm & [=] & _)].
    unfold test_check_and_remove_fifo.
    change (@sys_stat _ PosixTest.platform p t) with (PosixTest.stat p t).
    unfold PosixTest.stat. rewrite Hp. discriminate.
Qed.

(** ** The whole suite on the reference platform *)

Section SuiteFacts.
Import Posix.
Implicit Types (t : gmap string node).

Lemma posix_path_new p st m k t tr :
  t !! p = None -> t !! dirname p = Some Dir ->
  mkfifo_path p (Machine (MkCtx st m) k t tr) =
  Machine (MkCtx st m) k (<[p := Fifo (Z.land m (Z.lnot k))]> t)
          (tr ++ [CMkfifo p m k 0]).
Proof.
  intros Hp Hd. rewrite mkfifo_path_eq. cbn [ctx mode status_code cmask files calls].
  change (@sys_mkfifo platform p m k t) with (mkfifo p m k t).
  unfold mkfifo. rewrite Hp, Hd. reflexivity.
Qed.

Lemma posix_path_refused p st m k t tr :
  t !! dirname p = None ->
  mkfifo_path p (Machine (MkCtx st m) k t tr) =
  Machine (MkCtx EXIT_FAILURE m) k t
          (tr ++ [CMkfifo p m k (-1); CWarn true ("cannot create fifo: " +:+ p)]).
Proof.
  intros Hd. rewrite mkfifo_path_eq. cbn [ctx mode status_code cmask files calls].
  change (@sys_mkfifo platform p m k t) with (mkfifo p m k t).
  unfold mkfifo. rewrite Hd. destruct (t !! p); reflexivity.
Qed.

Lemma remove_not_dir p t :
  t !! p <> Some Dir ->
  @snd Z (@fs platform) (PosixTest.remove p t) = delete p t.
Proof.
  intros Hp. unfold PosixTest.remove.
  destruct (t !! p) as [[| perm] |] eqn:E; [contradiction | reflexivity |].
  cbn. symmetry. apply delete_id, E.
Qed.

(** The mask lets through the same bits of 0666 whether or not the result
    is cut to nine bits. *)
Lemma default_perms mask :
  Z.land (Z.land (oct [6;6;6]) (Z.lnot mask)) (oct [7;7;7])
  = Z.land (oct [6;6;6]) (Z.lnot mask).
Proof.
  rewrite <- Z.land_assoc, (Z.land_comm (Z.lnot mask)), Z.land_assoc.
  reflexivity.
Qed.

End SuiteFacts.

Section SuiteRuns.
Import Posix.
Implicit Types (t : gmap string node).

Local Abbreviation run_test := (@test_mkfifo_main platform).
Local Abbreviation run := (@mkfifo_run platform).
Local Abbreviation state := (@Machine platform).

Lemma suite_noexist mask t :
  t !! "build/noexist" = None ->
  run_test None false EXIT_FAILURE [PATH_NOEXIST] mask t = Some t.
Proof.
  intros Hn. unfold test_mkfifo_main.
  change (fits _) with true. cbn match.
  change (run (test_argv None false [PATH_NOEXIST]) mask t)
    with (mkfifo_path PATH_NOEXIST (state (MkCtx 0 (oct [6;6;6])) mask t [])).
  rewrite posix_path_refused by exact Hn. reflexivity.
Qed.

Lemma suite_one mask t :
  t !! PATH_MKFIFO = None -> t !! "build" = Some Dir ->
  run_test None false EXIT_SUCCESS [PATH_MKFIFO] mask t =
  Some (<[PATH_MKFIFO := Fifo (Z.land (oct [6;6;6]) (Z.lnot mask))]> t).
Proof.
  intros H1 Hb. unfold test_mkfifo_main.
  change (fits _) with true. cbn match.
  change (run (test_argv None false [PATH_MKFIFO]) mask t)
    with (mkfifo_path PATH_MKFIFO (state (MkCtx 0 (oct [6;6;6])) mask t [])).
  rewrite posix_path_new by assumption. reflexivity.
Qed.

Lemma suite_two mask t :
  t !! PATH_MKFIFO = None -> t !! PATH_MKFIFO_2 = None ->
  t !! "build" = Some Dir ->
  run_test None false EXIT_SUCCESS [PATH_MKFIFO; PATH_MKFIFO_2] mask t =
  Some (<[PATH_MKFIFO_2 := Fifo (Z.land (oct [6;6;6]) (Z.lnot mask))]>
          (<[PATH_MKFIFO := Fifo (Z.land (oct [6;6;6]) (Z.lnot mask))]> t)).
Proof.
  intros H1 H2 Hb. unfold test_mkfifo_main.
  change (fits _) with true. cbn match.
  change (run (test_argv None false [PATH_MKFIFO; PATH_MKFIFO_2]) mask t)
    with (mkfifo_path PATH_MKFIFO_2
            (mkfifo_path PATH_MKFIFO (state (MkCtx 0 (oct [6;6;6])) mask t []))).
  rewrite (posix_path_new PATH_MKFIFO) by assumption.
  rewrite posix_path_new; [reflexivity | |].
  - rewrite lookup_insert_ne by discriminate. exact H2.
  - change (dirname PATH_MKFIFO_2) with "build".
    rewrite lookup_insert_ne by discriminate. exact Hb.
Qed.

Lemma suite_one_fails mask t :
  t !! PATH_MKFIFO = None -> t !! "build" = Some Dir ->
  t !! "build/noexist" = None ->
  run_test None false EXIT_FAILURE [PATH_MKFIFO; PATH_NOEXIST] mask t =
  Some (<[PATH_MKFIFO := Fifo (Z.land (oct [6;6;6]) (Z.lnot mask))]> t).
Proof.
  intros H1 Hb Hn. unfold test_mkfifo_main.
  change (fits _) with true. cbn match.
  change (run (test_argv None false [PATH_MKFIFO; PATH_NOEXIST]) mask t)
    with (mkfifo_path PATH_NOEXIST
            (mkfifo_path PATH_MKFIFO (state (MkCtx 0 (oct [6;6;6])) mask t []))).
  rewrite (posix_path_new PATH_MKFIFO) by assumption.
  rewrite posix_path_refused; [reflexivity |].
  change (dirname PATH_NOEXIST) with "build/noexist".
  rewrite lookup_insert_ne by discriminate. exact Hn.
Qed.

Lemma suite_mode mask t :
  t !! PATH_MKFIFO = None -> t !! "build" = Some Dir ->
  run_test (Some "123") false EXIT_SUCCESS [PATH_MKFIFO] mask t =
  Some (<[PATH_MKFIFO := Fifo (oct [1;2;3])]> t).
Proof.
  intros H1 Hb. unfold test_mkfifo_main.
  change (fits _) with true. cbn match.
  change (run (test_argv (Some "123") false [PATH_MKFIFO]) mask t)
    with (mkfifo_path PATH_MKFIFO
            (state (MkCtx 0 (oct [1;2;3])) 0 t [CUmask 0; CSetmode "123"])).
  rewrite posix_path_new by assumption. reflexivity.
Qed.

End SuiteRuns.

(** X9. On the reference platform the test suite passes exactly when the
    file-creation mask of the test process lets through 0644 of the default
    0666 (as 022 does); it then leaves the tree as it found it, less the two
    FIFO paths it uses.  The tree must hold the directory build, no
    build/noexist, and no directory at the two FIFO paths. *)
Theorem test_all_spec mask (t : gmap string Posix.node) :
  t !! "build" = Some Posix.Dir ->
  t !! "build/noexist" = None ->
  t !! PATH_MKFIFO <> Some Posix.Dir ->
  t !! PATH_MKFIFO_2 <> Some Posix.Dir ->
  test_all mask t =
  if decide (Z.land (oct [6;6;6]) (Z.lnot mask) = default_mode)
  then Some (delete PATH_MKFIFO_2 (delete PATH_MKFIFO t))
  else None.
Proof.
  intros Hbuild Hnoexist Hf1 Hf2. unfold test_all.
  change (@sys_remove _ PosixTest.platform) with PosixTest.remove.
  rewrite (remove_not_dir PATH_MKFIFO t Hf1).
  rewrite (remove_not_dir PATH_MKFIFO_2)
    by (rewrite lookup_delete_ne by discriminate; exact Hf2).
  set (t0 := delete PATH_MKFIFO_2 (delete PATH_MKFIFO t)).
  assert (t0 !! PATH_MKFIFO = None) as H1
    by (unfold t0; rewrite lookup_delete_ne by discriminate; apply lookup_delete_eq).
  assert (t0 !! PATH_MKFIFO_2 = None) as H2 by apply lookup_delete_eq.
  assert (t0 !! "build" = Some Posix.Dir) as Hb
    by (unfold t0; rewrite !lookup_delete_ne by discriminate; exact Hbuild).
  assert (t0 !! "build/noexist" = None) as Hn
    by (unfold t0; rewrite !lookup_delete_ne by discriminate; exact Hnoexist).
  clearbody t0.
  (* the runs that fail before any creation, then the missing directory *)
  change (@test_mkfifo_main Posix.platform None false EXIT_FAILURE [] mask t0)
    with (Some t0).
  cbn [mbind option_bind].
  change (@test_mkfifo_main Posix.platform (Some "abc") false EXIT_FAILURE
            [PATH_MKFIFO] mask t0) with (Some t0).
  cbn [mbind option_bind].
  change (@test_mkfifo_main Posix.platform None true EXIT_FAILURE
            [PATH_MKFIFO] mask t0) with (Some t0).
  cbn [mbind option_bind].
  rewrite (suite_noexist mask t0 Hn). cbn [mbind option_bind].
  (* one FIFO with the default mode: here the mask shows *)
  rewrite (suite_one mask t0 H1 Hb). cbn [mbind option_bind].
  rewrite (check_fifo PATH_MKFIFO default_mode _ _ (lookup_insert_eq _ _ _)).
  rewrite default_perms.
  destruct (Z.eqb_spec (Z.land (oct [6;6;6]) (Z.lnot mask)) default_mode)
    as [Hmask | Hmask].
  2: { rewrite decide_False by exact Hmask. reflexivity. }
  rewrite decide_True by exact Hmask. cbn [mbind option_bind].
  rewrite delete_insert_eq, (delete_id t0 PATH_MKFIFO H1).
  (* two FIFOs *)
  rewrite (suite_two mask t0 H1 H2 Hb). cbn [mbind option_bind].
  rewrite (check_fifo PATH_MKFIFO default_mode
             (Z.land (oct [6;6;6]) (Z.lnot mask)))
    by (rewrite lookup_insert_ne by discriminate; apply lookup_insert_eq).
  rewrite default_perms, (proj2 (Z.eqb_eq _ _) Hmask). cbn [mbind option_bind].
  rewrite delete_insert_ne, delete_insert_eq, (delete_id t0 PATH_MKFIFO H1)
    by discriminate.
  rewrite (check_fifo PATH_MKFIFO_2 default_mode _ _ (lookup_insert_eq _ _ _)).
  rewrite default_perms, (proj2 (Z.eqb_eq _ _) Hmask). cbn [mbind option_bind].
  rewrite delete_insert_eq, (delete_id t0 PATH_MKFIFO_2 H2).
  (* one FIFO and one failure *)
  rewrite (suite_one_fails mask t0 H1 Hb Hn). cbn [mbind option_bind].
  rewrite (check_fifo PATH_MKFIFO default_mode _ _ (lookup_insert_eq _ _ _)).
  rewrite default_perms, (proj2 (Z.eqb_eq _ _) Hmask). cbn [mbind option_bind].
  rewrite delete_insert_eq, (delete_id t0 PATH_MKFIFO H1).
  (* -m 123: the child clears its mask, the node gets 0123 whatever [mask] *)
  rewrite (suite_mode mask t0 H1 Hb). cbn [mbind option_bind].
  rewrite (check_fifo PATH_MKFIFO (oct [1;2;3]) _ _ (lookup_insert_eq _ _ _)).
  change (Z.land (oct [1;2;3]) (oct [7;7;7]) =? oct [1;2;3]) with true.
  cbn match. rewrite delete_insert_eq, (delete_id t0 PATH_MKFIFO H1).
  reflexivity.
Qed.

Lemma test_all_spec_witness :
  (Posix.build_tree !! "build" = Some Posix.Dir /\
   Posix.build_tree !! "build/noexist" = None /\
   Posix.build_tree !! PATH_MKFIFO <> Some Posix.Dir /\
   Posix.build_tree !! PATH_MKFIFO_2 <> Some Posix.Dir) /\
  test_all (oct [0;2;2]) Posix.build_tree =
  if decide (Z.land (oct [6;6;6]) (Z.lnot (oct [0;2;2])) = default_mode)
  then Some (delete PATH_MKFIFO_2 (delete PATH_MKFIFO Posix.build_tree))
  else None.
Proof.
  assert (Posix.build_tree !! PATH_MKFIFO <> Some Posix.Dir) as H1
    by (vm_compute; discriminate).
  assert (Posix.build_tree !! PATH_MKFIFO_2 <> Some Posix.Dir) as H2
    by (vm_compute; discriminate).
  split; [repeat split; assumption |].
  exact (test_all_spec (oct [0;2;2]) Posix.build_tree eq_refl eq_refl H1 H2).
Defined.

(** * What a successful run leaves behind *)

Section Success.
Import Posix.

Lemma not_failed_ret (l : list attempt) a :
  existsb failed l = false -> a ∈ l -> a_ret a = 0.
Proof.
  intros Hnone Ha. destruct (Z.eqb_spec (a_ret a) 0) as [| Hne]; [assumption |].
  assert (existsb failed l = true) as Habs; [| congruence].
  apply existsb_exists. exists a. split; [apply list_elem_of_In, Ha |].
  unfold failed. destruct (Z.eqb_spec (a_ret a) 0); [contradiction | reflexivity].
Qed.

Lemma paths_of_triples (l : list attempt) (ps : list string) (m k : Z) :
  (fun a => (a_path a, a_mode a, a_mask a)) <$> l = (fun p => (p, m, k)) <$> ps ->
  a_path <$> l = ps.
Proof.
  revert ps. induction l as [| a l IH]; intros [| p ps]; cbn;
    intros Heq; try discriminate; [reflexivity |].
  injection Heq as -> _ _ Heq. f_equal. apply IH, Heq.
Qed.

(** While no creation has failed, no path has been tried twice. *)
Lemma create_paths_distinct ps (s : @machine platform) :
  attempts (calls s) = [] ->
  existsb failed (attempts (calls (create_paths ps s))) = false ->
  NoDup (a_path <$> attempts (calls (create_paths ps s))).
Proof.
  intros Hs.
  apply (create_paths_ind (fun _ s' =>
    created s' /\
    (existsb failed (attempts (calls s')) = false ->
     NoDup (a_path <$> attempts (calls s'))))).
  - split.
    + intros a Ha. rewrite Hs in Ha. inversion Ha.
    + intros _. rewrite Hs. constructor.
  - intros _ p s' [Hcreated IH].
    split; [apply created_mkfifo_path, Hcreated |].
    rewrite mkfifo_path_eq. cbn [calls]. rewrite attempts_app, existsb_app.
    pose proof (posix_mkfifo_spec p (mode (ctx s')) (cmask s') (files s')) as Hspec.
    change (mkfifo p (mode (ctx s')) (cmask s') (files s'))
      with (sys_mkfifo p (mode (ctx s')) (cmask s') (files s')) in Hspec.
    destruct (sys_mkfifo p (mode (ctx s')) (cmask s') (files s')) as [r t'].
    cbn [fst snd] in *.
    destruct Hspec as [(-> & Hnone & _) | (-> & _)].
    + change (attempts (CMkfifo p (mode (ctx s')) (cmask s') 0 :: _))
        with [Attempt p (mode (ctx s')) (cmask s') 0].
      intros Hok. apply orb_false_elim in Hok as [Hok _].
      rewrite fmap_app. apply NoDup_app. split; [apply IH, Hok | split].
      * intros q Hq Hq'. apply list_elem_of_singleton in Hq'. cbn in Hq'. subst q.
        apply list_elem_of_fmap in Hq as (a & Hp & Ha).
        pose proof (Hcreated a Ha (not_failed_ret _ a Hok Ha)) as Hthere.
        rewrite <- Hp in Hthere.
        change (files s' !! p = None) in Hnone. congruence.
      * apply NoDup_singleton.
    + change (attempts (CMkfifo p (mode (ctx s')) (cmask s') (-1) :: _))
        with [Attempt p (mode (ctx s')) (cmask s') (-1)].
      intros Hok. apply orb_false_elim in Hok as [_ Hok]. discriminate.
Qed.

End Success.

(** X10. On the reference platform a run that exits with Success had at
    least one operand, all its operands are distinct, and each of them is
    now a FIFO whose permission bits are the mode of the run less the bits
    of the mask in force. *)
Theorem success_creates_all (argv : list string) mask0
    (fs0 : gmap string Posix.node) :
  mkfifo_main argv mask0 fs0 = EXIT_SUCCESS ->
  let r := mkfifo_run argv mask0 fs0 in
  operands argv <> [] /\
  NoDup (operands argv) /\
  forall p, p ∈ operands argv ->
    files r !! p = Some (Posix.Fifo (Z.land (mode (ctx r)) (Z.lnot (cmask r)))).
Proof.
  intros Hexit. cbn zeta. rewrite mkfifo_main_eq in Hexit.
  destruct (existsb option_fails (getopt_loop argv).1) eqn:Efail; [discriminate |].
  destruct (bool_decide_reflect (operands argv = [])) as [| Hops]; [discriminate |].
  destruct (existsb failed _) eqn:Eatt; [discriminate |].
  pose proof (run_attempts (P := Posix.platform) argv mask0 fs0 Efail Hops) as Hargs.
  cbn zeta in Hargs.
  destruct (run_frame (P := Posix.platform) argv mask0 fs0) as [Hm Hk].
  cbn zeta in Hm, Hk. rewrite <- Hm, <- Hk in Hargs.
  split; [exact Hops | split].
  - rewrite <- (paths_of_triples _ _ _ _ Hargs).
    rewrite mkfifo_run_eq, Efail in Eatt |- *. cbn zeta in Eatt |- *.
    rewrite bool_decide_eq_false_2 in Eatt |- * by exact Hops.
    apply create_paths_distinct; [apply scanned_attempts | exact Eatt].
  - intros p Hp.
    assert ((p, mode (ctx (mkfifo_run argv mask0 fs0)),
                cmask (mkfifo_run argv mask0 fs0))
            ∈ (fun a => (a_path a, a_mode a, a_mask a))
                <$> attempts (calls (mkfifo_run argv mask0 fs0))) as Hin.
    { rewrite Hargs. apply list_elem_of_fmap. exists p. auto. }
    apply list_elem_of_fmap in Hin as (a & Heq & Ha).
    injection Heq as -> -> ->.
    apply (created_run argv mask0 fs0 a Ha), (not_failed_ret _ a Eatt Ha).
Qed.

Lemma success_creates_all_witness :
  let r := Posix.test_run ["mkfifo"; "-m"; "640"; "build/a"; "build/b"] in
  mkfifo_main ["mkfifo"; "-m"; "640"; "build/a"; "build/b"]
    (oct [0;2;2]) Posix.build_tree = EXIT_SUCCESS /\
  operands ["mkfifo"; "-m"; "640"; "build/a"; "build/b"] <> [] /\
  NoDup (operands ["mkfifo"; "-m"; "640"; "build/a"; "build/b"]) /\
  forall p, p ∈ operands ["mkfifo"; "-m"; "640"; "build/a"; "build/b"] ->
    files r !! p = Some (Posix.Fifo (Z.land (mode (ctx r)) (Z.lnot (cmask r)))).
Proof.
  cbn zeta. split; [reflexivity |].
  exact (success_creates_all ["mkfifo"; "-m"; "640"; "build/a"; "build/b"]
           (oct [0;2;2]) Posix.build_tree eq_refl).
Defined.
